(** * ShipmentMap: the client-side tracking reconciliation core

    A shallow embedding of [frontend/src/ShipmentMap.js]: the response
    reader [safeJson], the three fetch continuations of the polling effect
    ([fetchData], [fetchSimRoute], [fetchOptRoute]), the effect's timer
    life cycle and the render function of the [ShipmentMap] component.

    JavaScript values are the values [response.json()] can produce, plus
    [undefined] (the result of reading an absent property).  Exceptions are an
    explicit [result] type; the component's hooks are a record of state
    cells; the event loop is a step function over the events the browser
    delivers (a timer tick, the settlement of a pending fetch, a change of
    the [shipmentId] prop, unmounting). *)

From Stdlib Require Import QArith ZArith Ascii String List.
From stdpp Require Import base list strings gmap.

#[local] Open Scope string_scope.

(** ** Numbers

    A JavaScript number is [NaN], an infinity, or a finite value.  Finite
    values are kept as exact rationals in lowest terms: the component
    never does arithmetic on them, so the rounding of a literal to the
    nearest double is not modelled, and the two zeros are identified.
    Overflow of a literal to an infinity is modelled, since
    [Number.isFinite] observes it. *)

Inductive number : Type :=
  | NaN
  | Infinity (negative : bool)
  | Finite (q : Q).

Definition isFinite (n : number) : bool :=
  match n with Finite _ => true | _ => false end.

Definition number_of_nat (n : nat) : number := Finite (inject_Z (Z.of_nat n)).

(** [n > 0] on numbers. *)
Definition number_pos (n : number) : bool :=
  match n with
  | NaN => false
  | Infinity negative => negb negative
  | Finite q => negb (Qle_bool q 0)
  end.

(** Truthiness of a number: everything but [NaN] and zero. *)
Definition number_truthy (n : number) : bool :=
  match n with
  | NaN => false
  | Infinity _ => true
  | Finite q => negb (Qeq_bool q 0)
  end.

(** The least magnitude that rounds to an infinity: [2^1024 - 2^970]. *)
Definition overflow_threshold : Q := inject_Z (2 ^ 1024 - 2 ^ 970).

(** The number denoted by the decimal [m * 10^e], with sign. *)
Definition decimal (negative : bool) (m : N) (e : Z) : number :=
  let q := Qred (inject_Z (Z.of_N m) * Qpower (inject_Z 10) e) in
  if Qle_bool overflow_threshold q then Infinity negative
  else Finite (if negative then Qred (Qopp q) else q).

(** ** Strings and numeric literals

    Strings are sequences of code units; the model covers the code units
    below 256. *)

Definition is_digit (c : ascii) : bool :=
  let n := nat_of_ascii c in (48 <=? n)%nat && (n <=? 57)%nat.

Definition digit_val (c : ascii) : N := N.of_nat (nat_of_ascii c - 48).

(** WhiteSpace and LineTerminator code units: TAB, LF, VT, FF, CR, SP, NBSP. *)
Definition is_space (c : ascii) : bool :=
  let n := nat_of_ascii c in
  ((9 <=? n)%nat && (n <=? 13)%nat) || (n =? 32)%nat || (n =? 160)%nat.

Fixpoint skip_space (s : string) : string :=
  match s with
  | String c s' => if is_space c then skip_space s' else s
  | EmptyString => s
  end.

Fixpoint trim_end (s : string) : string :=
  match s with
  | EmptyString => EmptyString
  | String c s' =>
      let t := trim_end s' in
      if is_space c && (String.length t =? 0)%nat then EmptyString else String c t
  end.

Definition trim (s : string) : string := trim_end (skip_space s).

(** Reads the longest run of decimal digits in front of [s]; [acc] and
    [count] accumulate the value and the number of digits read. *)
Fixpoint read_digits (s : string) (acc : N) (count : nat) : N * nat * string :=
  match s with
  | String c s' =>
      if is_digit c then read_digits s' (10 * acc + digit_val c)%N (S count)
      else (acc, count, s)
  | EmptyString => (acc, count, s)
  end.

Definition read_sign (s : string) : bool * string :=
  match s with
  | String "-" s' => (true, s')
  | String "+" s' => (false, s')
  | _ => (false, s)
  end.

(** ExponentPart, read only when it is complete ([e], optional sign, at
    least one digit); otherwise nothing is consumed. *)
Definition read_exponent (s : string) : Z * string :=
  match s with
  | String c s1 =>
      if (c =? "e")%char || (c =? "E")%char then
        let '(negative, s2) := read_sign s1 in
        let '(v, k, s3) := read_digits s2 0%N 0%nat in
        match k with
        | O => (0%Z, s)
        | S _ => ((if negative then - Z.of_N v else Z.of_N v)%Z, s3)
        end
      else (0%Z, s)
  | EmptyString => (0%Z, s)
  end.

(** The longest prefix of [s] that is a StrDecimalLiteral, with the rest
    of the string; [None] when no prefix is one. *)
Definition read_decimal (s : string) : option (number * string) :=
  let '(negative, s0) := read_sign s in
  if String.prefix "Infinity" s0 then
    Some (Infinity negative, String.substring 8 (String.length s0 - 8) s0)
  else
    let '(i, ki, s1) := read_digits s0 0%N 0%nat in
    let '(f, kf, s2) :=
      match s1 with
      | String "." s1' => read_digits s1' i 0%nat
      | _ => (i, 0%nat, s1)
      end in
    match ki, kf with
    | O, O => None
    | _, _ =>
        let '(e, s3) := read_exponent s2 in
        Some (decimal negative f (e - Z.of_nat kf), s3)
    end.

(** The global [parseFloat]. *)
Definition parseFloat (s : string) : number :=
  match read_decimal (skip_space s) with
  | Some (n, _) => n
  | None => NaN
  end.

(** Digits of the non-decimal integer literals ([0x], [0o], [0b]). *)
Definition radix_digit (base : N) (c : ascii) : option N :=
  let n := nat_of_ascii c in
  let d :=
    if (48 <=? n)%nat && (n <=? 57)%nat then Some (N.of_nat (n - 48))
    else if (97 <=? n)%nat && (n <=? 102)%nat then Some (N.of_nat (n - 87))
    else if (65 <=? n)%nat && (n <=? 70)%nat then Some (N.of_nat (n - 55))
    else None in
  match d with
  | Some v => if (v <? base)%N then Some v else None
  | None => None
  end.

Fixpoint read_radix (base : N) (s : string) (acc : N) : option N :=
  match s with
  | EmptyString => Some acc
  | String c s' =>
      match radix_digit base c with
      | Some v => read_radix base s' (base * acc + v)%N
      | None => None
      end
  end.

Definition read_integer_literal (s : string) : option number :=
  match s with
  | String "0" (String c (String d s' as body)) =>
      let base :=
        if (c =? "x")%char || (c =? "X")%char then Some 16%N
        else if (c =? "o")%char || (c =? "O")%char then Some 8%N
        else if (c =? "b")%char || (c =? "B")%char then Some 2%N
        else None in
      match base with
      | Some b =>
          match read_radix b body 0%N with
          | Some v => Some (decimal false v 0)
          | None => None
          end
      | None => None
      end
  | _ => None
  end.

(** StringToNumber, the conversion applied to a string operand of [>]. *)
Definition string_to_number (s : string) : number :=
  let t := trim s in
  match t with
  | EmptyString => Finite 0
  | _ =>
      match read_decimal t with
      | Some (n, EmptyString) => n
      | _ =>
          match read_integer_literal t with
          | Some n => n
          | None => NaN
          end
      end
  end.

(** ** Values *)

#[warnings="-register-all"]
Inductive value : Type :=
  | VUndefined
  | VNull
  | VBool (b : bool)
  | VNum (n : number)
  | VStr (s : string)
  | VArr (elems : list value)
  | VObj (fields : list (string * value)).

(** ToBoolean. *)
Definition truthy (v : value) : bool :=
  match v with
  | VUndefined | VNull => false
  | VBool b => b
  | VNum n => number_truthy n
  | VStr s => negb (String.length s =? 0)%nat
  | VArr _ | VObj _ => true
  end.

(** [a || b]. *)
Definition js_or (a b : value) : value := if truthy a then a else b.

(** [typeof v === 'number']. *)
Definition is_number (v : value) : bool :=
  match v with VNum _ => true | _ => false end.

(** [Array.isArray(v)]. *)
Definition isArray (v : value) : bool :=
  match v with VArr _ => true | _ => false end.

(** The own property [k] of an object, given as its list of fields. *)
Fixpoint own (fields : list (string * value)) (k : string) : option value :=
  match fields with
  | [] => None
  | (k', v) :: rest => if String.eqb k' k then Some v else own rest k
  end.

(** [v.k] on a value that is neither [null] nor [undefined], for a name
    [k] that no prototype defines (every property the component reads by
    name, except [length] and [map], has such a name). *)
Definition field (v : value) (k : string) : value :=
  match v with
  | VObj fields => default VUndefined (own fields k)
  | _ => VUndefined
  end.

(** [a[i]] on an array. *)
Definition elem (elems : list value) (i : nat) : value :=
  default VUndefined (elems !! i).

(** ** Exceptions *)

Inductive result (A : Type) : Type :=
  | Ok (a : A)
  | Throw (message : string).
Arguments Ok {A} a.
Arguments Throw {A} message.

#[global] Instance result_ret : MRet result := @Ok.
#[global] Instance result_bind : MBind result := λ A B k r,
  match r with
  | Ok a => k a
  | Throw m => Throw m
  end.

(** [try { body } catch (e) { handler(e.message) }]. *)
Definition try_catch {A : Type} (body : result A) (handler : string → A) : A :=
  match body with
  | Ok a => a
  | Throw m => handler m
  end.

(** The message of a TypeError raised by the engine; no catch clause of
    the component reads it. *)
Definition type_error : string := "TypeError".

(** [v.k], raising on [null] and [undefined]. *)
Definition prop (v : value) (k : string) : result value :=
  match v with
  | VUndefined | VNull => Throw type_error
  | _ => Ok (field v k)
  end.

(** [v.length] on a value that is neither [null] nor [undefined]. *)
Definition length_of (v : value) : value :=
  match v with
  | VArr elems => VNum (number_of_nat (List.length elems))
  | VStr s => VNum (number_of_nat (String.length s))
  | _ => field v "length"
  end.

(** [v[0]] on a value that is neither [null] nor [undefined]: the first
    element, the first character, or the own property named [0]. *)
Definition first_of (v : value) : value :=
  match v with
  | VArr elems => elem elems 0
  | VStr (String c _) => VStr (String c EmptyString)
  | _ => field v "0"
  end.

(** ToString raises on an object parsed from JSON that has an own
    [toString] property (it is not callable), and on an array that holds
    such an object, since [join] converts every element. *)
Fixpoint unprintable (v : value) : bool :=
  match v with
  | VObj fields => bool_decide (is_Some (own fields "toString"))
  | VArr elems => existsb unprintable elems
  | _ => false
  end.

(** ToNumber.  An array converts through the string that joins its
    elements, an object through [toString]. *)
Fixpoint to_number (v : value) : result number :=
  match v with
  | VUndefined => Ok NaN
  | VNull => Ok (Finite 0)
  | VBool b => Ok (Finite (if b then 1 else 0))
  | VNum n => Ok n
  | VStr s => Ok (string_to_number s)
  | VArr elems =>
      if existsb unprintable elems then Throw type_error
      else
        match elems with
        | [] => Ok (Finite 0)
        | [x] =>
            match x with
            | VUndefined | VNull => Ok (Finite 0)
            | VBool _ => Ok NaN
            | VNum n => Ok n
            | VStr s => Ok (string_to_number s)
            | VArr _ => to_number x
            | VObj _ => Ok NaN
            end
        | _ :: _ :: _ => Ok NaN
        end
  | VObj fields => if unprintable v then Throw type_error else Ok NaN
  end.

(** [v > 0]. *)
Definition gt_zero (v : value) : result bool :=
  n ← to_number v; Ok (number_pos n).

(** ** The response reader

    A settled [fetch] is a [Response]: its status, its [content-type]
    header, and what awaiting [response.text()] and [response.json()]
    gives (either may reject, for instance on a body that is not JSON). *)

Record Response : Type := {
  status : nat;
  content_type : option string;
  text : result string;
  json : result value;
}.

(** [response.ok]: the status is in the range 200-299. *)
Definition ok (response : Response) : bool :=
  (200 <=? status response)%nat && (status response <=? 299)%nat.

(** [ct.includes(needle)]. *)
Definition includes (ct needle : string) : bool :=
  bool_decide (is_Some (String.index 0 needle ct)).

(** [text.slice(0, n)]. *)
Definition slice0 (n : nat) (s : string) : string := String.substring 0 n s.

Definition safeJson (response : Response) (defaultValue : value) : result value :=
  if (status response =? 404)%nat then Ok defaultValue
  else if negb (ok response) then
    body ← text response;
    Throw (if negb (String.length body =? 0)%nat then body
           else "Network response was not ok")
  else
    let ct := default "" (content_type response) in
    if negb (includes ct "application/json") then
      body ← text response;
      Throw ("Expected JSON but got: " +:+ slice0 200 body)
    else json response.

(** ** Route normalization

    A route is an array of two-element arrays. *)

Definition point : Type := value * value.
Definition route : Type := list point.

(** [array.map(f)] with a callback that may raise. *)
Fixpoint map_result {A B : Type} (f : A → result B) (l : list A) : result (list B) :=
  match l with
  | [] => Ok []
  | a :: l' => b ← f a; bs ← map_result f l'; Ok (b :: bs)
  end.

(** [geometry.map(f)]: only an array has a callable [map]. *)
Definition js_map {B : Type} (geometry : value) (f : value → result B) : result (list B) :=
  match geometry with
  | VArr elems => map_result f elems
  | _ => Throw type_error
  end.

(** [json && json.geometry ? json.geometry : []]. *)
Definition geometry_of (payload : value) : value :=
  if truthy payload && truthy (field payload "geometry") then field payload "geometry"
  else VArr [].

(** [p => Array.isArray(p) ? [p[1], p[0]] : [p.lat, p.lng]]. *)
Definition sim_point (p : value) : result point :=
  match p with
  | VArr elems => Ok (elem elems 1, elem elems 0)
  | _ => lat ← prop p "lat"; lng ← prop p "lng"; Ok (lat, lng)
  end.

(** [([lon, lat]) => [lat, lon]]: the parameter pattern iterates its
    argument, so it raises on anything but an array or a string. *)
Definition opt_pair (p : value) : result point :=
  match p with
  | VArr elems => Ok (elem elems 1, elem elems 0)
  | VStr s =>
      let chars := (λ c, VStr (String c EmptyString)) <$> String.list_ascii_of_string s in
      Ok (elem chars 1, elem chars 0)
  | _ => Throw type_error
  end.

(** [p => [p.lat, p.lng]]. *)
Definition opt_labeled (p : value) : result point :=
  lat ← prop p "lat"; lng ← prop p "lng"; Ok (lat, lng).

(** The normalization in [fetchSimRoute]: from the parsed payload to the
    array handed to [setSimRoute]. *)
Definition simGeometry (payload : value) : result route :=
  js_map (geometry_of payload) sim_point.

(** The normalization in [fetchOptRoute]: from the parsed payload to the
    array handed to [setOptRoute]. *)
Definition optGeometry (payload : value) : result route :=
  let geometry := geometry_of payload in
  nonempty ← gt_zero (length_of geometry);
  if nonempty : bool then
    if isArray (first_of geometry) then js_map geometry opt_pair
    else
      lat ← prop (first_of geometry) "lat";
      if is_number lat then js_map geometry opt_labeled
      else Ok []
  else Ok [].

(** The default handed to [safeJson] by both route fetches. *)
Definition no_geometry : value := VObj [("geometry", VArr [])].

(** The body of [fetchSimRoute] after the fetch settles with [fetched]:
    the value handed to [setSimRoute]. *)
Definition fetchSimRoute (fetched : result Response) : route :=
  try_catch
    (res ← fetched; payload ← safeJson res no_geometry; simGeometry payload)
    (λ _, []).

(** The body of [fetchOptRoute] after the fetch settles with [fetched]:
    the value handed to [setOptRoute]. *)
Definition fetchOptRoute (fetched : result Response) : route :=
  try_catch
    (res ← fetched; payload ← safeJson res no_geometry; optGeometry payload)
    (λ _, []).

(** ** Component state

    The five [useState] cells of [ShipmentMap].  [error] is [null] or the
    message of a caught exception. *)

Record hooks : Type := {
  trackingData : value;
  loading : bool;
  error : option string;
  simRoute : route;
  optRoute : route;
}.

Definition initial_hooks : hooks :=
  {| trackingData := VNull; loading := true; error := None;
     simRoute := []; optRoute := [] |}.

Definition setTrackingData (data : value) (h : hooks) : hooks :=
  {| trackingData := data; loading := loading h; error := error h;
     simRoute := simRoute h; optRoute := optRoute h |}.

Definition setLoading (b : bool) (h : hooks) : hooks :=
  {| trackingData := trackingData h; loading := b; error := error h;
     simRoute := simRoute h; optRoute := optRoute h |}.

Definition setError (message : string) (h : hooks) : hooks :=
  {| trackingData := trackingData h; loading := loading h; error := Some message;
     simRoute := simRoute h; optRoute := optRoute h |}.

Definition setSimRoute (r : route) (h : hooks) : hooks :=
  {| trackingData := trackingData h; loading := loading h; error := error h;
     simRoute := r; optRoute := optRoute h |}.

Definition setOptRoute (r : route) (h : hooks) : hooks :=
  {| trackingData := trackingData h; loading := loading h; error := error h;
     simRoute := simRoute h; optRoute := r |}.

(** The body of [fetchData] after the fetch settles with [fetched]. *)
Definition fetchData (fetched : result Response) (h : hooks) : hooks :=
  try_catch
    (res ← fetched;
     data ← safeJson res VNull;
     Ok (setLoading false (setTrackingData data h)))
    (λ message, setLoading false (setError message h)).

(** ** Rendering *)

Definition CurrentLatitude (trackingData : value) : value :=
  if is_number (field trackingData "CurrentLatitude") then field trackingData "CurrentLatitude"
  else if is_number (field trackingData "CurrentLat") then field trackingData "CurrentLat"
  else if is_number (field trackingData "latitude") then field trackingData "latitude"
  else if is_number (field trackingData "Latitude") then field trackingData "Latitude"
  else
    match field trackingData "CurrentLatitude" with
    | VStr s => if negb (String.length s =? 0)%nat then VNum (parseFloat s) else VNum NaN
    | _ => VNum NaN
    end.

Definition CurrentLongitude (trackingData : value) : value :=
  if is_number (field trackingData "CurrentLongitude") then field trackingData "CurrentLongitude"
  else if is_number (field trackingData "CurrentLng") then field trackingData "CurrentLng"
  else if is_number (field trackingData "longitude") then field trackingData "longitude"
  else if is_number (field trackingData "Longitude") then field trackingData "Longitude"
  else
    match field trackingData "CurrentLongitude" with
    | VStr s => if negb (String.length s =? 0)%nat then VNum (parseFloat s) else VNum NaN
    | _ => VNum NaN
    end.

Definition currentStatus (trackingData : value) : value :=
  js_or (js_or (js_or (field trackingData "currentStatus")
                      (field trackingData "current_state"))
               (field trackingData "status"))
        VNull.

Definition estimatedDelivery (trackingData : value) : value :=
  js_or (js_or (field trackingData "estimatedDelivery")
               (field trackingData "estimated_delivery"))
        VNull.

(** [Number.isFinite(v)]. *)
Definition Number_isFinite (v : value) : bool :=
  match v with VNum n => isFinite n | _ => false end.

(** A [<Polyline>] element. *)
Record Polyline : Type := {
  positions : route;
  color : string;
  dashArray : option string;
  weight : nat;
}.

(** The [<Popup>] element: the status shown, and the value whose date is
    shown ([None] stands for the text [N/A]). *)
Record Popup : Type := {
  popup_status : value;
  popup_estimated : option value;
}.

(** What the component returns.  How React and Leaflet draw the elements
    is outside the model; an exception raised while the component builds
    them is an outcome of [render]. *)
Inductive view : Type :=
  | LoadingMessage
  | ErrorMessage (message : string)
  | NoTrackingData
  | InvalidLocation
  | MapView (initialPosition markerPosition : point) (popup : Popup)
            (overlays : list Polyline).

Definition string_truthy (s : option string) : bool :=
  match s with
  | Some m => negb (String.length m =? 0)%nat
  | None => false
  end.

(** [new Date(v).toLocaleString()].  The constructor converts an object
    or array argument to a primitive, which raises for the values
    [unprintable] describes; nothing else in the expression raises (an
    unreadable date gives the text of an invalid date).  The text is not
    modelled: the popup keeps the value it is computed from. *)
Definition Date_toLocaleString (v : value) : result value :=
  if unprintable v then Throw type_error else Ok v.

Definition render (h : hooks) : result view :=
  if loading h then Ok LoadingMessage
  else if string_truthy (error h) then Ok (ErrorMessage (default "" (error h)))
  else if negb (truthy (trackingData h)) then Ok NoTrackingData
  else
    let lat := CurrentLatitude (trackingData h) in
    let lng := CurrentLongitude (trackingData h) in
    if negb (is_number lat) || negb (is_number lng)
       || negb (Number_isFinite lat) || negb (Number_isFinite lng)
    then Ok InvalidLocation
    else
      let markerPosition := (lat, lng) in
      estimated ←
        (if truthy (estimatedDelivery (trackingData h))
         then shown ← Date_toLocaleString (estimatedDelivery (trackingData h));
              Ok (Some shown)
         else Ok None);
      Ok (MapView markerPosition markerPosition
            {| popup_status := currentStatus (trackingData h);
               popup_estimated := estimated |}
            (if negb (List.length (optRoute h) =? 0)%nat
             then [ {| positions := optRoute h; color := "red";
                       dashArray := Some "8 4"; weight := 3 |} ]
             else [])).

(** ** The polling effect and the event loop

    One mounted component: its props, its state cells, the interval
    timers it has running in the browser, and the fetches it has issued
    that have not settled yet.  A request records which of the three
    fetch functions issued it and the [shipmentId] its closure holds. *)

Inductive endpoint : Type := Tracking | Simulated | Optimized.

Record request : Type := {
  target : endpoint;
  subject : string;
}.

Record component : Type := {
  shipmentId : string;
  mounted : bool;
  state : hooks;
  timers : gmap nat string;  (* active interval id, subject its callback polls *)
  next_timer : nat;          (* the id the next [setInterval] returns *)
  cleanup : option nat;      (* the [intervalId] held by the pending cleanup *)
  pending : list request;
}.

(** The three calls [fetchData(); fetchSimRoute(); fetchOptRoute();]:
    each runs up to its first [await] and leaves a fetch in flight. *)
Definition poll (id : string) : list request :=
  [ {| target := Tracking; subject := id |};
    {| target := Simulated; subject := id |};
    {| target := Optimized; subject := id |} ].

(** The effect body, run with the prop [shipmentId c].  A falsy id
    (modelled by the empty string) returns before anything is started. *)
Definition run_effect (c : component) : component :=
  if (String.length (shipmentId c) =? 0)%nat then c
  else
    {| shipmentId := shipmentId c;
       mounted := mounted c;
       state := state c;
       timers := <[next_timer c := shipmentId c]> (timers c);
       next_timer := S (next_timer c);
       cleanup := Some (next_timer c);
       pending := pending c ++ poll (shipmentId c) |}.

(** The cleanup the effect returned, [() => clearInterval(intervalId)],
    if it returned one. *)
Definition run_cleanup (c : component) : component :=
  match cleanup c with
  | Some intervalId =>
      {| shipmentId := shipmentId c;
         mounted := mounted c;
         state := state c;
         timers := delete intervalId (timers c);
         next_timer := next_timer c;
         cleanup := None;
         pending := pending c |}
  | None => c
  end.

Definition mount (id : string) : component :=
  run_effect
    {| shipmentId := id; mounted := true; state := initial_hooks;
       timers := ∅; next_timer := 0; cleanup := None; pending := [] |}.

Definition with_shipmentId (id : string) (c : component) : component :=
  {| shipmentId := id; mounted := mounted c; state := state c;
     timers := timers c; next_timer := next_timer c; cleanup := cleanup c;
     pending := pending c |}.

Definition with_state (h : hooks) (c : component) : component :=
  {| shipmentId := shipmentId c; mounted := mounted c; state := h;
     timers := timers c; next_timer := next_timer c; cleanup := cleanup c;
     pending := pending c |}.

Definition with_pending (l : list request) (c : component) : component :=
  {| shipmentId := shipmentId c; mounted := mounted c; state := state c;
     timers := timers c; next_timer := next_timer c; cleanup := cleanup c;
     pending := l |}.

Definition unmounted (c : component) : component :=
  {| shipmentId := shipmentId c; mounted := false; state := state c;
     timers := timers c; next_timer := next_timer c; cleanup := cleanup c;
     pending := pending c |}.

(** The state updates of the fetch function that issued [target], run
    when its fetch settles with [fetched].  The awaits inside [safeJson]
    touch no state, so the continuation is one step of the model. *)
Definition settle (target : endpoint) (fetched : result Response) (h : hooks) : hooks :=
  match target with
  | Tracking => fetchData fetched h
  | Simulated => setSimRoute (fetchSimRoute fetched) h
  | Optimized => setOptRoute (fetchOptRoute fetched) h
  end.

Inductive event : Type :=
  | SetShipment (id : string)     (* the parent renders with this prop *)
  | Unmount
  | Tick (intervalId : nat)       (* the browser fires this interval *)
  | Settle (n : nat) (fetched : result Response).
                                  (* the n-th fetch in flight settles *)

(** React runs the effect when the dependency [shipmentId] changed,
    after the cleanup of the previous run; it runs the cleanup on
    unmount and drops state updates of an unmounted component.  The
    browser fires only active intervals. *)
Definition step (c : component) (e : event) : component :=
  match e with
  | SetShipment id =>
      if mounted c && negb (String.eqb id (shipmentId c))
      then run_effect (with_shipmentId id (run_cleanup c))
      else c
  | Unmount =>
      if mounted c then unmounted (run_cleanup c) else c
  | Tick intervalId =>
      match timers c !! intervalId with
      | Some id => with_pending (pending c ++ poll id) c
      | None => c
      end
  | Settle n fetched =>
      match pending c !! n with
      | Some r =>
          let c' := with_pending (delete n (pending c)) c in
          if mounted c then with_state (settle (target r) fetched (state c)) c'
          else c'
      | None => c
      end
  end.

Definition run (c : component) (es : list event) : component := foldl step c es.

(** ** Vocabulary of the specification *)

(** A wire pair [[lon, lat]] and the point [[lat, lon]] it stands for. *)
Definition pair_array (p : value * value) : value := VArr [p.1; p.2].
Definition swapped (p : value * value) : point := (p.2, p.1).

(** The two recognized shapes of a geometry element: a two-element pair,
    and an object with a numeric [lat]. *)
Definition is_pair (p : value) : bool :=
  match p with VArr [_; _] => true | _ => false end.

Definition is_labeled (p : value) : bool := is_number (field p "lat").

Definition unrecognized (p : value) : bool := negb (is_pair p) && negb (is_labeled p).

(** A route fetch is fail-soft on a class of geometry elements when every
    payload whose geometry holds only such elements gives the empty
    route. *)
Definition fail_soft (shape : value → bool) (fetchRoute : result Response → route) : Prop :=
  ∀ res payload elems,
    safeJson res no_geometry = Ok payload →
    field payload "geometry" = VArr elems →
    Forall (λ p, shape p = true) elems →
    fetchRoute (Ok res) = [].

(** Elements that are neither arrays nor objects with a numeric [lat]. *)
Definition unlabeled_non_array (p : value) : bool :=
  negb (isArray p) && negb (is_labeled p).

(** A success response that carries [payload] as JSON. *)
Definition json_response (payload : value) : Response :=
  {| status := 200; content_type := Some "application/json";
     text := Ok ""; json := Ok payload |}.

Definition num (q : Q) : value := VNum (Finite q).

(** The optimized-route scenario of the specification:
    [{geometry: [[-74.0, 40.7], [-73.9, 40.8]]}]. *)
Definition scenario_pairs : list (value * value) :=
  [ (num (-74), num 40.7); (num (-73.9), num 40.8) ].

Definition scenario_route : value :=
  VObj [("geometry", VArr (pair_array <$> scenario_pairs))].

(** A geometry of unlabeled objects, [{geometry: [{foo: 1}]}], and one of
    three-element arrays, [{geometry: [[1, 2, 3]]}]. *)
Definition foo_route : value :=
  VObj [("geometry", VArr [VObj [("foo", num 1)]])].

Definition triple_route : value :=
  VObj [("geometry", VArr [VArr [num 1; num 2; num 3]])].

(** A tracking payload, [{CurrentLat: 40.7, CurrentLng: -74.0,
    current_state: "in_transit"}]. *)
Definition tracking_payload : value :=
  VObj [("CurrentLat", num 40.7); ("CurrentLng", num (-74));
        ("current_state", VStr "in_transit")].

(** A body of 300 characters. *)
Definition long_body : string :=
  String.string_of_list_ascii (replicate 300 "x"%char).

(** Responses of a failing server: status 500 with the given body, a page
    of markup served with status 200, and status 404. *)
Definition server_error (body : string) : Response :=
  {| status := 500; content_type := Some "text/plain";
     text := Ok body; json := Throw "SyntaxError" |}.

Definition html_page (body : string) : Response :=
  {| status := 200; content_type := Some "text/html";
     text := Ok body; json := Throw "SyntaxError" |}.

Definition not_found : Response :=
  {| status := 404; content_type := None;
     text := Ok ""; json := Throw "SyntaxError" |}.

(** The state cells of a component that has loaded [data] and the
    optimized route [opt] without an error. *)
Definition hooks_showing (data : value) (opt : route) : hooks :=
  {| trackingData := data; loading := false; error := None;
     simRoute := []; optRoute := opt |}.

(** The overlays of what [render] gives: the polylines it draws. *)
Definition overlays_of (v : result view) : list Polyline :=
  match v with
  | Ok (MapView _ _ _ overlays) => overlays
  | _ => []
  end.

(** The field names the component tries for each coordinate, in the
    order it tries them; the first of each list is the primary name. *)
Definition lat_names : list string :=
  ["CurrentLatitude"; "CurrentLat"; "latitude"; "Latitude"].

Definition lng_names : list string :=
  ["CurrentLongitude"; "CurrentLng"; "longitude"; "Longitude"].

(** A numeric string for [x]: a non-empty string that parses to [x]. *)
Definition numeric_string (s : string) (x : number) : Prop :=
  s ≠ "" ∧ parseFloat s = x.

(** The payload [d] supplies the coordinate [x] under the single name
    [k], as a number or as a numeric string; [string_under k] says under
    which names a string counts. *)
Definition carries (string_under : string → Prop) (names : list string)
    (d : value) (k : string) (x : number) : Prop :=
  k ∈ names
  ∧ (field d k = VNum x
     ∨ (string_under k ∧ ∃ s, field d k = VStr s ∧ numeric_string s x))
  ∧ ∀ k', k' ∈ names → k' ≠ k → field d k' = VUndefined.

(** All variants give the same coordinates. *)
Definition variants_agree (lat_string lng_string : string → Prop) : Prop :=
  ∀ d klat klng x y,
    carries lat_string lat_names d klat x →
    carries lng_string lng_names d klng y →
    isFinite x = true → isFinite y = true →
    CurrentLatitude d = VNum x ∧ CurrentLongitude d = VNum y.

(** None of [names] is a field of [d]. *)
Definition absent (names : list string) (d : value) : Prop :=
  ∀ k, k ∈ names → field d k = VUndefined.

(** The shape shared by [CurrentLatitude] and [CurrentLongitude]. *)
Definition first_coordinate (d : value) (k1 k2 k3 k4 : string) : value :=
  if is_number (field d k1) then field d k1
  else if is_number (field d k2) then field d k2
  else if is_number (field d k3) then field d k3
  else if is_number (field d k4) then field d k4
  else
    match field d k1 with
    | VStr s => if negb (String.length s =? 0)%nat then VNum (parseFloat s) else VNum NaN
    | _ => VNum NaN
    end.

(** String-valued coordinates under alias names:
    [{CurrentLat: "40.7", CurrentLng: "-74.0"}]. *)
Definition string_alias_payload : value :=
  VObj [("CurrentLat", VStr "40.7"); ("CurrentLng", VStr "-74.0")].

(** A latitude as a numeric string under the primary name and a
    longitude as a number under an alias. *)
Definition mixed_payload : value :=
  VObj [("CurrentLatitude", VStr "40.7"); ("Longitude", num (-74))].

(** A payload without coordinates, [{status: "delivered"}]. *)
Definition no_position_payload : value := VObj [("status", VStr "delivered")].

(** The invariant of the polling effect: the component's active timers
    are exactly the interval its pending cleanup will clear, and that
    interval polls the current subject. *)
Record session_inv (c : component) : Prop := {
  inv_timers :
    timers c = match cleanup c with
               | Some intervalId => {[ intervalId := shipmentId c ]}
               | None => ∅
               end;
  inv_fresh : ∀ intervalId, cleanup c = Some intervalId → intervalId < next_timer c;
  inv_unmounted : mounted c = false → cleanup c = None;
  inv_no_subject : shipmentId c = "" → cleanup c = None;
}.

(** The event [e] stops the session that is active in [c]: the
    component is unmounted or is given another subject, so that React
    runs the cleanup of the effect. *)
Definition stops (c : component) (e : event) : Prop :=
  mounted c = true
  ∧ is_Some (cleanup c)
  ∧ (e = Unmount ∨ ∃ id, e = SetShipment id ∧ id ≠ shipmentId c).

(** The claim that stopping a session silences the fetches in flight:
    after the stop, the settlement of a fetch that was pending at the
    stop changes no state cell. *)
Definition stop_discards_in_flight : Prop :=
  ∀ id es e n r fetched,
    let c0 := run (mount id) es in
    let c := step c0 e in
    stops c0 e →
    pending c0 !! n = Some r →
    state (step c (Settle n fetched)) = state c.

(** ** The marker presenter and the map view

    [AnimatedMarker] keeps a ref to the Leaflet marker and repositions it
    in an effect.  Of the marker only its location is modelled, and of
    [setLatLng] only that it stores the two elements of the array it is
    given. *)

Record LeafletMarker : Type := { latLng : point }.

Definition setLatLng (position : value) (m : LeafletMarker) : LeafletMarker :=
  match position with
  | VArr elems => {| latLng := (elem elems 0, elem elems 1) |}
  | _ => m
  end.

(** [Array.isArray(position) && position.length === 2 &&
    position.every((coord) => Number.isFinite(coord))]. *)
Definition position_ok (position : value) : bool :=
  match position with
  | VArr elems => (List.length elems =? 2)%nat && forallb Number_isFinite elems
  | _ => false
  end.

(** The effect of [AnimatedMarker], run with the ref's current marker
    ([None] while the ref is [null]) and the [position] prop; it gives
    the marker the ref holds afterwards. *)
Definition AnimatedMarker_effect (current : option LeafletMarker) (position : value)
    : option LeafletMarker :=
  match current with
  | Some m => if position_ok position then Some (setLatLng position m) else current
  | None => None
  end.

(** The array [[lat, lng]] a point stands for. *)
Definition point_array (p : point) : value := VArr [p.1; p.2].

(** What [MapView] renders: a [MapContainer] centred on
    [initialPosition] at zoom 6, holding the tile layer and an
    [AnimatedMarker] at [markerPosition] around the children. *)
Record MapContainer : Type := {
  center : value;
  zoom : nat;
  marker_position : value;
  marker_popup : Popup;
  marker_overlays : list Polyline;
}.

(** The [MapContainer] inside what [render] gives, when that is a
    [MapView] element. *)
Definition MapView_body (v : result view) : option MapContainer :=
  match v with
  | Ok (MapView initialPosition markerPosition popup overlays) =>
      Some {| center := point_array initialPosition; zoom := 6;
              marker_position := point_array markerPosition;
              marker_popup := popup; marker_overlays := overlays |}
  | _ => None
  end.

(** ** Request URLs *)

(** [process.env.REACT_APP_API_BASE || 'http://localhost:3001']. *)
Definition API_BASE (env : option string) : string :=
  match env with
  | Some base => if negb (String.length base =? 0)%nat then base else "http://localhost:3001"
  | None => "http://localhost:3001"
  end.

(** The URL each fetch function builds for its subject. *)
Definition url (base : string) (r : request) : string :=
  match target r with
  | Tracking => base +:+ "/api/containers/" +:+ subject r +:+ "/tracking"
  | Simulated => base +:+ "/api/routes/simulated/" +:+ subject r
  | Optimized => base +:+ "/api/routes/optimized/" +:+ subject r
  end.

(** ** Further vocabulary *)

(** A labeled coordinate object [{lat, lng}]. *)
Definition labeled (p : value * value) : value := VObj [("lat", p.1); ("lng", p.2)].


(** The events that give the component no subject. *)
Definition keeps_idle (e : event) : bool :=
  match e with
  | SetShipment id => (String.length id =? 0)%nat
  | _ => true
  end.

(** What a fetch function reads from a settled fetch: the parsed payload,
    or the exception of the fetch or of [safeJson]. *)
Definition read (fetched : result Response) (defaultValue : value) : result value :=
  res ← fetched; safeJson res defaultValue.

(** An idle component: no subject, nothing in flight, no timer, the
    initial state cells. *)
Definition idle (c : component) : Prop :=
  state c = initial_hooks ∧ pending c = [] ∧ timers c = ∅
  ∧ cleanup c = None ∧ shipmentId c = "".

(** The claim that a payload without coordinates is signalled as an
    invalid location: whenever the tracking fetch of a component whose
    state cells are [ready] delivers a payload that [accepts] admits and
    that has none of the latitude and none of the longitude fields, the
    component renders the invalid-location message. *)
Definition invalid_location_signalled (ready : hooks → Prop) (accepts : value → Prop)
    : Prop :=
  ∀ c n r res d,
    mounted c = true → pending c !! n = Some r → target r = Tracking →
    ready (state c) →
    safeJson res VNull = Ok d → accepts d →
    absent lat_names d → absent lng_names d →
    render (state (step c (Settle n (Ok res)))) = Ok InvalidLocation.

(** * Properties *)

#[local] Open Scope nat_scope.

(** ** Basic facts *)

Lemma number_pos_of_nat (n : nat) :
  number_pos (number_of_nat n) = negb (n =? 0)%nat.
Proof. by destruct n. Qed.

Lemma field_is_object (v : value) (k : string) (w : value) :
  field v k = w → w ≠ VUndefined → ∃ fields, v = VObj fields.
Proof. destruct v; simpl; intros <- Hw; try done. eauto. Qed.

Lemma geometry_of_array (payload : value) (elems : list value) :
  field payload "geometry" = VArr elems → geometry_of payload = VArr elems.
Proof.
  intros Hg. destruct (field_is_object _ _ _ Hg) as [fields ->]; [done|].
  unfold geometry_of. by rewrite Hg.
Qed.

Lemma fetchSimRoute_ok (res : Response) (payload : value) :
  safeJson res no_geometry = Ok payload →
  fetchSimRoute (Ok res) = try_catch (simGeometry payload) (λ _, []).
Proof. intros Hs. unfold fetchSimRoute. simpl. by rewrite Hs. Qed.

Lemma fetchOptRoute_ok (res : Response) (payload : value) :
  safeJson res no_geometry = Ok payload →
  fetchOptRoute (Ok res) = try_catch (optGeometry payload) (λ _, []).
Proof. intros Hs. unfold fetchOptRoute. simpl. by rewrite Hs. Qed.

(** ** Numeric literals *)

Example parseFloat_decimal : parseFloat "40.7" = Finite 40.7.
Proof. reflexivity. Qed.

Example parseFloat_prefix : parseFloat "  -74.0 W" = Finite (-74).
Proof. reflexivity. Qed.

Example parseFloat_exponent : parseFloat "1.5e3" = Finite 1500.
Proof. reflexivity. Qed.

Example parseFloat_not_numeric : parseFloat "north" = NaN.
Proof. reflexivity. Qed.

Example parseFloat_overflow : parseFloat "1e400" = Infinity false.
Proof. vm_compute. reflexivity. Qed.

Example string_to_number_whole : string_to_number " 12 " = Finite 12.
Proof. reflexivity. Qed.

Example string_to_number_trailing : string_to_number "12px" = NaN.
Proof. reflexivity. Qed.

Example string_to_number_hex : string_to_number "0x10" = Finite 16.
Proof. reflexivity. Qed.

(** ** Route normalization *)

Lemma map_sim_point_pairs (pairs : list (value * value)) :
  map_result sim_point (pair_array <$> pairs) = Ok (swapped <$> pairs).
Proof.
  induction pairs as [|[lon lat] pairs IH]; [done|].
  rewrite !fmap_cons. cbn [map_result pair_array sim_point mbind result_bind].
  by rewrite IH.
Qed.

Lemma map_opt_pair_pairs (pairs : list (value * value)) :
  map_result opt_pair (pair_array <$> pairs) = Ok (swapped <$> pairs).
Proof.
  induction pairs as [|[lon lat] pairs IH]; [done|].
  rewrite !fmap_cons. cbn [map_result pair_array opt_pair mbind result_bind].
  by rewrite IH.
Qed.

Lemma map_sim_point_labeled (pts : list point) :
  map_result sim_point (labeled <$> pts) = Ok pts.
Proof.
  induction pts as [|[lat lng] pts IH]; [done|].
  rewrite fmap_cons. cbn [map_result]. rewrite IH. reflexivity.
Qed.

Lemma simGeometry_pairs (payload : value) (pairs : list (value * value)) :
  field payload "geometry" = VArr (pair_array <$> pairs) →
  simGeometry payload = Ok (swapped <$> pairs).
Proof.
  intros Hg. unfold simGeometry. rewrite (geometry_of_array _ _ Hg). simpl.
  apply map_sim_point_pairs.
Qed.

Lemma optGeometry_pairs (payload : value) (pairs : list (value * value)) :
  field payload "geometry" = VArr (pair_array <$> pairs) →
  optGeometry payload = Ok (swapped <$> pairs).
Proof.
  intros Hg. unfold optGeometry. rewrite (geometry_of_array _ _ Hg).
  unfold gt_zero. cbn [length_of to_number mbind result_bind].
  rewrite number_pos_of_nat.
  destruct pairs as [|[lon lat] pairs]; [done|].
  cbn -[map_result]. apply (map_opt_pair_pairs ((lon, lat) :: pairs)).
Qed.

(** C3.  A payload whose geometry is a sequence of [[lon, lat]] pairs is
    normalized, by the simulated and by the optimized route fetch alike,
    to the same points in the same order with every pair swapped to
    [[lat, lon]]; the settled fetch stores exactly that route. *)
Theorem route_pairs_swapped (payload : value) (pairs : list (value * value)) :
  field payload "geometry" = VArr (pair_array <$> pairs) →
  simGeometry payload = Ok (swapped <$> pairs)
  ∧ optGeometry payload = Ok (swapped <$> pairs)
  ∧ length (swapped <$> pairs) = length pairs
  ∧ ∀ res, safeJson res no_geometry = Ok payload →
      fetchSimRoute (Ok res) = swapped <$> pairs
      ∧ fetchOptRoute (Ok res) = swapped <$> pairs.
Proof.
  intros Hg.
  pose proof (simGeometry_pairs _ _ Hg) as Hsim.
  pose proof (optGeometry_pairs _ _ Hg) as Hopt.
  repeat split; [done|done|by rewrite length_fmap| |].
  - rewrite (fetchSimRoute_ok _ _ H). by rewrite Hsim.
  - rewrite (fetchOptRoute_ok _ _ H). by rewrite Hopt.
Qed.

(** The specification's scenario: [[-74.0, 40.7], [-73.9, 40.8]] becomes
    [[40.7, -74.0], [40.8, -73.9]] for both sources. *)
Lemma route_pairs_swapped_witness :
  simGeometry scenario_route = Ok [ (num 40.7, num (-74)); (num 40.8, num (-73.9)) ]
  ∧ optGeometry scenario_route = Ok [ (num 40.7, num (-74)); (num 40.8, num (-73.9)) ]
  ∧ fetchOptRoute (Ok (json_response scenario_route))
    = [ (num 40.7, num (-74)); (num 40.8, num (-73.9)) ].
Proof.
  destruct (route_pairs_swapped scenario_route scenario_pairs) as (Hs & Ho & _ & Hf);
    [reflexivity|].
  split; [exact Hs|]. split; [exact Ho|].
  apply (Hf (json_response scenario_route)). reflexivity.
Defined.

Lemma optGeometry_unrecognized_first (payload p : value) (elems : list value) :
  field payload "geometry" = VArr (p :: elems) →
  unlabeled_non_array p = true →
  try_catch (optGeometry payload) (λ _, []) = [].
Proof.
  intros Hg Hp. unfold optGeometry. rewrite (geometry_of_array _ _ Hg).
  unfold gt_zero. cbn [length_of to_number mbind result_bind].
  rewrite number_pos_of_nat.
  change (first_of (VArr (p :: elems))) with p.
  apply andb_true_iff in Hp as [Harr Hlab].
  apply negb_true_iff in Harr, Hlab. unfold is_labeled in Hlab.
  cbn [length Nat.eqb negb]. rewrite Harr.
  destruct p; simpl in *; try done; by rewrite Hlab.
Qed.

(** C5, as the code has it.  When no element of the geometry is an array
    or an object with a numeric [lat], the optimized route fetch stores
    the empty route: nothing is raised out of it and no entry is derived
    from the elements. *)
Theorem opt_route_fail_soft (res : Response) (payload : value) (elems : list value) :
  safeJson res no_geometry = Ok payload →
  field payload "geometry" = VArr elems →
  Forall (λ p, unlabeled_non_array p = true) elems →
  fetchOptRoute (Ok res) = [].
Proof.
  intros Hs Hg Hall. rewrite (fetchOptRoute_ok _ _ Hs).
  destruct Hall as [|p elems Hp _].
  - unfold optGeometry. by rewrite (geometry_of_array _ _ Hg).
  - by eapply optGeometry_unrecognized_first.
Qed.

Lemma opt_route_fail_soft_witness :
  fetchOptRoute (Ok (json_response foo_route)) = [].
Proof.
  apply (opt_route_fail_soft (json_response foo_route) foo_route
           [VObj [("foo", num 1)]]).
  - reflexivity.
  - reflexivity.
  - repeat constructor.
Defined.

(** C5, as stated, fails for both sources: the simulated route fetch
    turns [{foo: 1}] into the entry [[undefined, undefined]], and the
    optimized route fetch turns [[1, 2, 3]] into the entry [[2, 1]]. *)
Lemma fail_soft_counterexample :
  ¬ fail_soft unrecognized fetchSimRoute ∧ ¬ fail_soft unrecognized fetchOptRoute.
Proof.
  split; intros Hsoft.
  - specialize (Hsoft (json_response foo_route) foo_route
                  [VObj [("foo", num 1)]] eq_refl eq_refl).
    discriminate Hsoft. repeat constructor.
  - specialize (Hsoft (json_response triple_route) triple_route
                  [VArr [num 1; num 2; num 3]] eq_refl eq_refl).
    discriminate Hsoft. repeat constructor.
Qed.

(** ** The response reader *)

Lemma slice0_length (n : nat) (s : string) : (String.length (slice0 n s) ≤ n)%nat.
Proof.
  unfold slice0. revert s. induction n as [|n IH]; intros [|c s]; simpl; try lia.
  specialize (IH s). lia.
Qed.

Lemma append_length (s1 s2 : string) :
  String.length (s1 +:+ s2) = String.length s1 + String.length s2.
Proof. induction s1 as [|c s1 IH]; simpl; [done|]. by rewrite <- IH. Qed.

(** A success status without a JSON media type is rejected with a
    message of at most 223 characters. *)
Lemma safeJson_not_json_bounded (res : Response) (d : value) (body : string) :
  ok res = true →
  includes (default "" (content_type res)) "application/json" = false →
  text res = Ok body →
  ∃ message, safeJson res d = Throw message ∧ (String.length message ≤ 223)%nat.
Proof.
  intros Hok Hct Htext. unfold safeJson.
  assert ((status res =? 404)%nat = false) as ->.
  { unfold ok in Hok. apply Nat.eqb_neq. intros E. rewrite E in Hok. done. }
  rewrite Hok, Hct, Htext. simpl. eexists. split; [done|].
  pose proof (slice0_length 200 body) as Hlen.
  change (String.length ("Expected JSON but got: " +:+ slice0 200 body) ≤ 223)%nat.
  rewrite append_length. simpl. lia.
Qed.

(** A failure status other than 404 is rejected with the whole body as
    the message, whatever its length. *)
Lemma safeJson_failure_whole_body (res : Response) (d : value) (body : string) :
  status res ≠ 404 →
  ok res = false →
  text res = Ok body →
  body ≠ "" →
  safeJson res d = Throw body.
Proof.
  intros H404 Hok Htext Hbody. unfold safeJson.
  apply Nat.eqb_neq in H404. rewrite H404, Hok, Htext. simpl.
  by destruct body.
Qed.

(** C8 at a failing response.  Status 500 with a body of 300 characters
    is rejected with a message of 300 characters: the body is not
    truncated on this path. *)
Theorem safeJson_failure_not_truncated :
  safeJson (server_error long_body) VNull = Throw long_body
  ∧ String.length long_body = 300.
Proof. split; reflexivity. Qed.

(** ** The tracking fetch and the view *)

Lemma fetchData_success (res : Response) (data : value) (h : hooks) :
  safeJson res VNull = Ok data →
  fetchData (Ok res) h = setLoading false (setTrackingData data h).
Proof. intros Hs. unfold fetchData. simpl. by rewrite Hs. Qed.

(** No path of [fetchData] resets the error cell. *)
Lemma fetchData_keeps_error (fetched : result Response) (h : hooks) :
  is_Some (error h) → is_Some (error (fetchData fetched h)).
Proof.
  intros He. unfold fetchData.
  destruct fetched as [res|m]; simpl; [|done].
  destruct (safeJson res VNull); simpl; done.
Qed.

(** C4 at a failing execution.  The first tracking fetch fails (the
    transport rejects, or the server answers with markup); the tracking
    fetch of the next tick succeeds and its payload is stored, but the
    error cell keeps the message and the view still shows it. *)
Theorem tracking_error_not_cleared :
  (let c := run (mount "S1")
              [ Settle 0 (Throw "Failed to fetch"); Tick 0;
                Settle 2 (Ok (json_response tracking_payload)) ] in
   trackingData (state c) = tracking_payload
   ∧ error (state c) = Some "Failed to fetch"
   ∧ render (state c) = Ok (ErrorMessage "Failed to fetch"))
  ∧
  (let c := run (mount "S1")
              [ Settle 0 (Ok (html_page "<html>")); Tick 0;
                Settle 2 (Ok (json_response tracking_payload)) ] in
   trackingData (state c) = tracking_payload
   ∧ render (state c) = Ok (ErrorMessage "Expected JSON but got: <html>")).
Proof. repeat split; vm_compute; reflexivity. Qed.

Lemma settle_step (c : component) (n : nat) (r : request) (fetched : result Response) :
  mounted c = true →
  pending c !! n = Some r →
  state (step c (Settle n fetched)) = settle (target r) fetched (state c).
Proof. intros Hm Hp. simpl. by rewrite Hp, Hm. Qed.

(** C9.  While the component shows a position, a tracking fetch that
    settles with status 404 replaces the stored tracking data by [null],
    and the view becomes the no-tracking-data message. *)
Theorem not_found_replaces_tracking
    (c : component) (n : nat) (r : request) (res : Response)
    (initialPosition markerPosition : point) (popup : Popup) (overlays : list Polyline) :
  mounted c = true →
  pending c !! n = Some r →
  target r = Tracking →
  status res = 404 →
  render (state c) = Ok (MapView initialPosition markerPosition popup overlays) →
  trackingData (state (step c (Settle n (Ok res)))) = VNull
  ∧ render (state (step c (Settle n (Ok res)))) = Ok NoTrackingData.
Proof.
  intros Hm Hp Ht H404 Hview.
  rewrite (settle_step _ _ _ _ Hm Hp), Ht. cbn [settle].
  rewrite (fetchData_success res VNull).
  - split; [done|]. unfold render in *. cbn.
    destruct (loading (state c)); [done|].
    by destruct (string_truthy (error (state c))).
  - unfold safeJson. by rewrite H404.
Qed.

Lemma not_found_replaces_tracking_witness :
  let c := run (mount "S1") [ Settle 0 (Ok (json_response tracking_payload)); Tick 0 ] in
  render (state c) = Ok (MapView (num 40.7, num (-74)) (num 40.7, num (-74))
                           {| popup_status := VStr "in_transit";
                              popup_estimated := None |} [])
  ∧ trackingData (state (step c (Settle 2 (Ok not_found)))) = VNull
  ∧ render (state (step c (Settle 2 (Ok not_found)))) = Ok NoTrackingData.
Proof.
  intros c. split; [reflexivity|].
  apply (not_found_replaces_tracking c 2 {| target := Tracking; subject := "S1" |}
           not_found (num 40.7, num (-74)) (num 40.7, num (-74))
           {| popup_status := VStr "in_transit"; popup_estimated := None |} []);
    reflexivity.
Defined.

(** The view does not read the simulated route. *)
Lemma render_setSimRoute (r : route) (h : hooks) : render (setSimRoute r h) = render h.
Proof. reflexivity. Qed.

Lemma render_overlays (h : hooks) (pl : Polyline) :
  pl ∈ overlays_of (render h) → positions pl = optRoute h ∧ color pl = "red".
Proof.
  unfold render, Date_toLocaleString.
  repeat match goal with
         | |- context [if ?b then _ else _] =>
             destruct b; cbn [overlays_of mbind result_bind]
         end;
    try (intros Hin; by apply elem_of_nil in Hin).
  all: intros Hin; apply list_elem_of_singleton in Hin; by subst pl.
Qed.

(** C10.  Every poll cycle issues the simulated-route fetch.  When it
    settles, the route normalized from its response is stored in
    [simRoute]: the swapped points of a geometry of [[lon, lat]] pairs,
    the points of a geometry of [{lat, lng}] objects, the empty route
    when the fetch rejects.  The view is the same whatever [simRoute]
    holds, and every polyline it draws has the optimized route as its
    positions. *)
Theorem sim_route_stored_not_drawn :
  (∀ id, {| target := Simulated; subject := id |} ∈ poll id)
  ∧ (∀ id, id ≠ "" → pending (mount id) = poll id)
  ∧ (∀ c t id, timers c !! t = Some id →
       pending (step c (Tick t)) = (pending c ++ poll id)%list)
  ∧ (∀ c n r fetched, mounted c = true → pending c !! n = Some r →
       target r = Simulated →
       simRoute (state (step c (Settle n fetched))) = fetchSimRoute fetched)
  ∧ (∀ c n r res payload pairs, mounted c = true → pending c !! n = Some r →
       target r = Simulated →
       safeJson res no_geometry = Ok payload →
       field payload "geometry" = VArr (pair_array <$> pairs) →
       simRoute (state (step c (Settle n (Ok res)))) = swapped <$> pairs)
  ∧ (∀ c n r res payload pts, mounted c = true → pending c !! n = Some r →
       target r = Simulated →
       safeJson res no_geometry = Ok payload →
       field payload "geometry" = VArr (labeled <$> pts) →
       simRoute (state (step c (Settle n (Ok res)))) = pts)
  ∧ (∀ c n r m, mounted c = true → pending c !! n = Some r →
       target r = Simulated →
       simRoute (state (step c (Settle n (Throw m)))) = [])
  ∧ (∀ r h, render (setSimRoute r h) = render h)
  ∧ (∀ h pl, pl ∈ overlays_of (render h) → positions pl = optRoute h).
Proof.
  assert (∀ c n r fetched, mounted c = true → pending c !! n = Some r →
            target r = Simulated →
            simRoute (state (step c (Settle n fetched))) = fetchSimRoute fetched)
    as Hstore.
  { intros c n r fetched Hm Hp Ht. by rewrite (settle_step _ _ _ _ Hm Hp), Ht. }
  split; [|split; [|split; [|split; [|split; [|split; [|split; [|split]]]]]]].
  - intros id. unfold poll. rewrite !elem_of_cons. tauto.
  - intros id Hid. unfold mount, run_effect. simpl. by destruct id.
  - intros c t id Ht. simpl. by rewrite Ht.
  - exact Hstore.
  - intros c n r res payload pairs Hm Hp Ht Hs Hg.
    rewrite (Hstore _ _ _ _ Hm Hp Ht), (fetchSimRoute_ok _ _ Hs).
    by rewrite (simGeometry_pairs _ _ Hg).
  - intros c n r res payload pts Hm Hp Ht Hs Hg.
    rewrite (Hstore _ _ _ _ Hm Hp Ht), (fetchSimRoute_ok _ _ Hs).
    unfold simGeometry. rewrite (geometry_of_array _ _ Hg). simpl.
    by rewrite map_sim_point_labeled.
  - intros c n r m Hm Hp Ht. by rewrite (Hstore _ _ _ _ Hm Hp Ht).
  - apply render_setSimRoute.
  - intros h pl Hin. by apply render_overlays.
Qed.

Lemma sim_route_stored_not_drawn_witness :
  let c := mount "S1" in
  let c' := step c (Settle 1 (Ok (json_response scenario_route))) in
  let pts := [ (num 40.7, num (-74)); (num 40.8, num (-73.9)) ] in
  let labeled_route := VObj [("geometry", VArr (labeled <$> pts))] in
  pending c = poll "S1"
  ∧ pending (step c (Tick 0)) = (pending c ++ poll "S1")%list
  ∧ simRoute (state c') = fetchSimRoute (Ok (json_response scenario_route))
  ∧ simRoute (state c') = pts
  ∧ simRoute (state (step c (Settle 1 (Ok (json_response labeled_route))))) = pts
  ∧ simRoute (state (step c (Settle 1 (Throw "Failed to fetch")))) = []
  ∧ positions {| positions := [(num 1, num 2)]; color := "red";
                 dashArray := Some "8 4"; weight := 3 |}
    = optRoute (hooks_showing tracking_payload [(num 1, num 2)]).
Proof.
  intros c c' pts labeled_route.
  destruct sim_route_stored_not_drawn
    as (_ & Hmount & Htick & Hstore & Hpairs & Hlabeled & Hreject & _ & Hdraw).
  split; [apply Hmount; discriminate|].
  split; [apply Htick; reflexivity|].
  split; [apply (Hstore c 1 {| target := Simulated; subject := "S1" |}); reflexivity|].
  split; [apply (Hpairs c 1 {| target := Simulated; subject := "S1" |}
                   (json_response scenario_route) scenario_route scenario_pairs);
          reflexivity|].
  split; [apply (Hlabeled c 1 {| target := Simulated; subject := "S1" |}
                   (json_response labeled_route) labeled_route pts);
          reflexivity|].
  split; [apply (Hreject c 1 {| target := Simulated; subject := "S1" |});
          reflexivity|].
  apply Hdraw. vm_compute. apply list_elem_of_here.
Defined.

(** ** Position normalization *)

Lemma CurrentLatitude_shape (d : value) :
  CurrentLatitude d = first_coordinate d "CurrentLatitude" "CurrentLat" "latitude" "Latitude".
Proof. reflexivity. Qed.

Lemma CurrentLongitude_shape (d : value) :
  CurrentLongitude d = first_coordinate d "CurrentLongitude" "CurrentLng" "longitude" "Longitude".
Proof. reflexivity. Qed.

Lemma elem_of_four {A : Type} (k k1 k2 k3 k4 : A) :
  k ∈ [k1; k2; k3; k4] → k = k1 ∨ k = k2 ∨ k = k3 ∨ k = k4.
Proof.
  rewrite !elem_of_cons, elem_of_nil. tauto.
Qed.

Ltac in_names := rewrite !elem_of_cons; tauto.

Lemma first_coordinate_carried (d : value) (k1 k2 k3 k4 k : string) (x : number) :
  k1 ≠ k2 → k1 ≠ k3 → k1 ≠ k4 → k2 ≠ k3 → k2 ≠ k4 → k3 ≠ k4 →
  carries (λ k, k = k1) [k1; k2; k3; k4] d k x →
  first_coordinate d k1 k2 k3 k4 = VNum x.
Proof.
  intros H12 H13 H14 H23 H24 H34 (Hk & Hval & Habs).
  assert (∀ k', k' ∈ [k1; k2; k3; k4] → k' ≠ k → is_number (field d k') = false) as Hno.
  { intros k' Hin Hne. by rewrite (Habs k' Hin Hne). }
  unfold first_coordinate.
  destruct Hval as [Hnum | (-> & s & Hstr & Hne & Hparse)].
  - apply elem_of_four in Hk as [-> | [-> | [-> | ->]]].
    + by rewrite Hnum.
    + rewrite (Hno k1), Hnum; [done|in_names|done].
    + rewrite (Hno k1), (Hno k2), Hnum; [done|in_names|done|in_names|done].
    + rewrite (Hno k1), (Hno k2), (Hno k3), Hnum;
        [done|in_names|done|in_names|done|in_names|done].
  - rewrite (Hno k2), (Hno k3), (Hno k4), Hstr;
      [|in_names|congruence|in_names|congruence|in_names|congruence].
    simpl. destruct s; [done|]. simpl. by rewrite Hparse.
Qed.

(** C2, as the code has it.  Whichever accepted variant carries a finite
    latitude and longitude (a number under the primary name, under an
    alias or under the generic lower-case name, or a numeric string
    under the primary name), the component computes the same
    coordinates: the values the payload carries. *)
Theorem accepted_variants_agree (d : value) (klat klng : string) (x y : number) :
  carries (λ k, k = "CurrentLatitude") lat_names d klat x →
  carries (λ k, k = "CurrentLongitude") lng_names d klng y →
  isFinite x = true → isFinite y = true →
  CurrentLatitude d = VNum x
  ∧ CurrentLongitude d = VNum y.
Proof.
  intros Hlat Hlng Hx Hy. split.
  - rewrite CurrentLatitude_shape.
    by eapply first_coordinate_carried; [..|exact Hlat].
  - rewrite CurrentLongitude_shape.
    by eapply first_coordinate_carried; [..|exact Hlng].
Qed.

Ltac other_names Hin :=
  apply elem_of_four in Hin as [-> | [-> | [-> | ->]]];
  first [reflexivity | congruence].

Lemma accepted_variants_agree_witness :
  CurrentLatitude mixed_payload = VNum (Finite 40.7)
  ∧ CurrentLongitude mixed_payload = VNum (Finite (-74)).
Proof.
  apply (accepted_variants_agree mixed_payload "CurrentLatitude" "Longitude").
  - split; [unfold lat_names; in_names|]. split.
    + right. split; [reflexivity|]. exists "40.7". split; [reflexivity|].
      split; [discriminate|reflexivity].
    + intros k' Hin Hne. other_names Hin.
  - split; [unfold lng_names; in_names|]. split.
    + left. reflexivity.
    + intros k' Hin Hne. other_names Hin.
  - reflexivity.
  - reflexivity.
Defined.

(** C2, as stated, fails: a numeric string under an alias name is not
    read.  [{CurrentLat: "40.7", CurrentLng: "-74.0"}] supplies both
    coordinates, and the component computes [NaN] for the latitude. *)
Lemma variants_agree_counterexample : ¬ variants_agree (λ _, True) (λ _, True).
Proof.
  intros Hagree.
  destruct (Hagree string_alias_payload "CurrentLat" "CurrentLng"
              (Finite 40.7) (Finite (-74))) as [Elat _].
  - split; [unfold lat_names; in_names|]. split.
    + right. split; [exact I|]. exists "40.7". split; [reflexivity|].
      split; [discriminate|reflexivity].
    + intros k' Hin Hne. other_names Hin.
  - split; [unfold lng_names; in_names|]. split.
    + right. split; [exact I|]. exists "-74.0". split; [reflexivity|].
      split; [discriminate|reflexivity].
    + intros k' Hin Hne. other_names Hin.
  - reflexivity.
  - reflexivity.
  - discriminate Elat.
Qed.

Lemma first_coordinate_absent (d : value) (k1 k2 k3 k4 : string) :
  absent [k1; k2; k3; k4] d → first_coordinate d k1 k2 k3 k4 = VNum NaN.
Proof.
  intros Habs. unfold first_coordinate.
  rewrite (Habs k1), (Habs k2), (Habs k3), (Habs k4); [done|in_names..].
Qed.

Lemma render_map_finite (h : hooks) (initialPosition markerPosition : point)
    (popup : Popup) (overlays : list Polyline) :
  render h = Ok (MapView initialPosition markerPosition popup overlays) →
  ∃ x y, markerPosition = (VNum (Finite x), VNum (Finite y))
         ∧ initialPosition = markerPosition.
Proof.
  unfold render, Date_toLocaleString.
  destruct (loading h); [done|].
  destruct (string_truthy (error h)); [done|].
  destruct (negb (truthy (trackingData h))); [done|].
  destruct (CurrentLatitude (trackingData h)) as [| | |[| |x]| | |];
    destruct (CurrentLongitude (trackingData h)) as [| | |[| |y]| | |];
    simpl; try done.
  destruct (truthy (estimatedDelivery (trackingData h)));
    [destruct (unprintable (estimatedDelivery (trackingData h)))|];
    simpl; try done; intros [= <- <- _ _]; eauto.
Qed.

(** C6, as the code has it.  A truthy tracking payload (every JSON
    object is one; the payloads [0], [false] and the empty string are
    not) that has none of the latitude fields and none of the longitude
    fields is rendered as the invalid-location message once loading is
    over and while no error is set, in particular right after the
    tracking fetch that delivered it settles; nothing is raised.  And
    whenever a map is rendered, both coordinates of the marker position
    are finite numbers. *)
Theorem missing_coordinates_invalid :
  (∀ h, loading h = false → string_truthy (error h) = false →
     truthy (trackingData h) = true →
     absent lat_names (trackingData h) → absent lng_names (trackingData h) →
     render h = Ok InvalidLocation)
  ∧ (∀ c n r res d, mounted c = true → pending c !! n = Some r →
       target r = Tracking → string_truthy (error (state c)) = false →
       safeJson res VNull = Ok d → truthy d = true →
       absent lat_names d → absent lng_names d →
       render (state (step c (Settle n (Ok res)))) = Ok InvalidLocation)
  ∧ (∀ h initialPosition markerPosition popup overlays,
       render h = Ok (MapView initialPosition markerPosition popup overlays) →
       ∃ x y, markerPosition = (VNum (Finite x), VNum (Finite y))).
Proof.
  assert (∀ h, loading h = false → string_truthy (error h) = false →
            truthy (trackingData h) = true →
            absent lat_names (trackingData h) → absent lng_names (trackingData h) →
            render h = Ok InvalidLocation) as Hrender.
  { intros h Hl He Ht Hlat Hlng. unfold render. rewrite Hl, He, Ht.
    rewrite CurrentLatitude_shape, (first_coordinate_absent _ _ _ _ _ Hlat).
    rewrite CurrentLongitude_shape, (first_coordinate_absent _ _ _ _ _ Hlng).
    reflexivity. }
  split; [exact Hrender|]. split.
  - intros c n r res d Hm Hp Ht He Hs Hd Hlat Hlng.
    rewrite (settle_step _ _ _ _ Hm Hp), Ht. cbn [settle].
    rewrite (fetchData_success _ _ _ Hs). by apply Hrender.
  - intros h ip mp popup ov Hview.
    destruct (render_map_finite _ _ _ _ _ Hview) as (x & y & -> & _). eauto.
Qed.

Lemma missing_coordinates_invalid_witness :
  render (hooks_showing no_position_payload []) = Ok InvalidLocation
  ∧ render (state (step (mount "S1") (Settle 0 (Ok (json_response no_position_payload)))))
    = Ok InvalidLocation
  ∧ ∃ x y, (num 40.7, num (-74)) = (VNum (Finite x), VNum (Finite y)).
Proof.
  destruct missing_coordinates_invalid as (Hrender & Hsettle & Hfinite).
  split; [|split].
  - apply (Hrender (hooks_showing no_position_payload [])); try reflexivity.
    + intros k Hin. unfold lat_names in Hin. other_names Hin.
    + intros k Hin. unfold lng_names in Hin. other_names Hin.
  - apply (Hsettle (mount "S1") 0 {| target := Tracking; subject := "S1" |}
             (json_response no_position_payload) no_position_payload);
      try reflexivity.
    + intros k Hin. unfold lat_names in Hin. other_names Hin.
    + intros k Hin. unfold lng_names in Hin. other_names Hin.
  - apply (Hfinite (hooks_showing tracking_payload [])
             (num 40.7, num (-74)) (num 40.7, num (-74))
             {| popup_status := VStr "in_transit"; popup_estimated := None |} []).
    reflexivity.
Defined.

(** C6, as stated, fails.  The payload [false] is not [null] and has no
    coordinate field, and the component renders the no-tracking-data
    message for it, not the invalid-location message.  Asking for a
    truthy payload is not enough either: while an error is set, the
    component renders the error message whatever the payload holds. *)
Lemma invalid_location_counterexample :
  ¬ invalid_location_signalled (λ _, True) (λ d, d ≠ VNull)
  ∧ ¬ invalid_location_signalled (λ _, True) (λ d, truthy d = true).
Proof.
  assert (∀ d : value, (∀ k, field d k = VUndefined) →
            absent lat_names d ∧ absent lng_names d) as Habsent.
  { intros d Hd. split; intros k _; apply Hd. }
  split; intros Hclaim.
  - destruct (Habsent (VBool false)) as [Hlat Hlng]; [done|].
    specialize (Hclaim (mount "S1") 0 {| target := Tracking; subject := "S1" |}
                  (json_response (VBool false)) (VBool false)
                  eq_refl eq_refl eq_refl I eq_refl).
    discriminate Hclaim; done.
  - assert (absent lat_names no_position_payload
            ∧ absent lng_names no_position_payload) as [Hlat Hlng].
    { split; intros k Hin; [unfold lat_names in Hin|unfold lng_names in Hin];
        other_names Hin. }
    specialize (Hclaim
                  (run (mount "S1") [Settle 0 (Throw "Failed to fetch"); Tick 0]) 2
                  {| target := Tracking; subject := "S1" |}
                  (json_response no_position_payload) no_position_payload
                  eq_refl eq_refl eq_refl I eq_refl eq_refl Hlat Hlng).
    discriminate Hclaim.
Qed.

(** ** The polling session *)

Lemma run_cons (c : component) (e : event) (es : list event) :
  run c (e :: es) = run (step c e) es.
Proof. reflexivity. Qed.

Lemma empty_id (id : string) : (String.length id =? 0) = true ↔ id = "".
Proof. destruct id; simpl; split; done. Qed.

Lemma run_effect_timers (c : component) :
  timers (run_effect c)
  = if (String.length (shipmentId c) =? 0) then timers c
    else <[next_timer c := shipmentId c]> (timers c).
Proof. unfold run_effect. by destruct (String.length (shipmentId c) =? 0). Qed.

Lemma run_effect_keeps (c : component) :
  state (run_effect c) = state c
  ∧ mounted (run_effect c) = mounted c
  ∧ ∃ issued, pending (run_effect c) = (pending c ++ issued)%list.
Proof.
  unfold run_effect. destruct (String.length (shipmentId c) =? 0); simpl.
  - repeat split. exists []. by rewrite app_nil_r.
  - repeat split. eauto.
Qed.

Lemma run_cleanup_keeps (c : component) :
  pending (run_cleanup c) = pending c
  ∧ state (run_cleanup c) = state c
  ∧ mounted (run_cleanup c) = mounted c
  ∧ next_timer (run_cleanup c) = next_timer c.
Proof. unfold run_cleanup. by destruct (cleanup c). Qed.

Lemma run_effect_inv (c : component) :
  timers c = ∅ → cleanup c = None → mounted c = true → session_inv (run_effect c).
Proof.
  intros Ht Hc Hm. unfold run_effect.
  destruct (String.length (shipmentId c) =? 0) eqn:Hid.
  - split; rewrite ?Hc, ?Ht; done.
  - split; simpl.
    + by rewrite Ht, insert_empty.
    + intros t [= <-]. lia.
    + by rewrite Hm.
    + intros E. apply empty_id in E. congruence.
Qed.

Lemma run_cleanup_released (c : component) :
  session_inv c → timers (run_cleanup c) = ∅ ∧ cleanup (run_cleanup c) = None.
Proof.
  intros [Ht _ _ _]. unfold run_cleanup.
  destruct (cleanup c) as [t|] eqn:Hc; simpl; [|by rewrite Hc].
  by rewrite Ht, delete_singleton_eq.
Qed.

Lemma mount_inv (id : string) : session_inv (mount id).
Proof. by apply run_effect_inv. Qed.

Lemma set_shipment_changed (c : component) (id : string) :
  mounted c = true → id ≠ shipmentId c →
  step c (SetShipment id) = run_effect (with_shipmentId id (run_cleanup c)).
Proof.
  intros Hm Hne. simpl. rewrite Hm.
  apply String.eqb_neq in Hne. by rewrite Hne.
Qed.

Lemma step_inv (c : component) (e : event) : session_inv c → session_inv (step c e).
Proof.
  intros Hinv. destruct e as [id| |t|n fetched]; simpl.
  - destruct (mounted c && negb (id =? shipmentId c)%string) eqn:Hgo; [|done].
    apply andb_true_iff in Hgo as [Hm _].
    destruct (run_cleanup_released c Hinv) as [Ht Hc].
    apply run_effect_inv; simpl; try done.
    by rewrite (proj1 (proj2 (proj2 (run_cleanup_keeps c)))).
  - destruct (mounted c) eqn:Hm; [|done].
    destruct (run_cleanup_released c Hinv) as [Ht Hc].
    split; simpl; rewrite ?Hc, ?Ht; done.
  - destruct (timers c !! t); [|done]. by destruct Hinv.
  - destruct (pending c !! n); [|done].
    destruct (mounted c); by destruct Hinv.
Qed.

Lemma run_inv (es : list event) (c : component) :
  session_inv c → session_inv (run c es).
Proof.
  revert c. induction es as [|e es IH]; intros c Hinv; [done|].
  rewrite run_cons. by apply IH, step_inv.
Qed.

Lemma inv_size (c : component) : session_inv c → size (timers c) ≤ 1.
Proof.
  intros [Ht _ _ _]. rewrite Ht. destruct (cleanup c).
  - by rewrite map_size_singleton.
  - rewrite map_size_empty. lia.
Qed.

(** An interval that was active before the subject changed or the
    component unmounted is not active afterwards. *)
Lemma stop_retires_timer (c : component) (e : event) (t : nat) :
  session_inv c →
  mounted c = true →
  e = Unmount ∨ (∃ id, e = SetShipment id ∧ id ≠ shipmentId c) →
  is_Some (timers c !! t) →
  timers (step c e) !! t = None.
Proof.
  intros Hinv Hm He [s Hs].
  destruct (run_cleanup_released c Hinv) as [Ht Hc].
  destruct He as [-> | (id & -> & Hne)].
  - simpl. rewrite Hm. simpl. by rewrite Ht, lookup_empty.
  - rewrite (set_shipment_changed _ _ Hm Hne), run_effect_timers. simpl.
    rewrite Ht. destruct (String.length id =? 0); [apply lookup_empty|].
    rewrite insert_empty. apply lookup_singleton_ne.
    rewrite (proj2 (proj2 (proj2 (run_cleanup_keeps c)))).
    rewrite (inv_timers c Hinv) in Hs.
    destruct (cleanup c) as [t0|] eqn:Hc0; [|by rewrite lookup_empty in Hs].
    apply lookup_singleton_Some in Hs as [<- _].
    pose proof (inv_fresh c Hinv t0 Hc0). lia.
Qed.

(** C7.  In every reachable state the component has at most one active
    interval.  The cleanup leaves none, so when the subject changes the
    previous interval is cleared before the new one is created: it is no
    longer active afterwards, and whatever interval is active polls the
    new subject. *)
Theorem at_most_one_timer (id : string) (es : list event) :
  let c := run (mount id) es in
  size (timers c) ≤ 1
  ∧ timers (run_cleanup c) = ∅
  ∧ ∀ id', mounted c = true → id' ≠ shipmentId c →
      let c' := step c (SetShipment id') in
      size (timers c') ≤ 1
      ∧ (∀ t, is_Some (timers c !! t) → timers c' !! t = None)
      ∧ (∀ t s, timers c' !! t = Some s → s = id').
Proof.
  intros c.
  assert (session_inv c) as Hinv by apply run_inv, mount_inv.
  split; [by apply inv_size|].
  split; [by apply run_cleanup_released|].
  intros id' Hm Hne c'.
  assert (session_inv c') as Hinv' by by apply step_inv.
  split; [by apply inv_size|]. split.
  - intros t Ht. apply stop_retires_timer; eauto.
  - intros t s. unfold c'.
    rewrite (set_shipment_changed _ _ Hm Hne), run_effect_timers. simpl.
    rewrite (proj1 (run_cleanup_released c Hinv)).
    destruct (String.length id' =? 0); [by rewrite lookup_empty|].
    rewrite insert_empty. by intros [_ <-]%lookup_singleton_Some.
Qed.

Lemma at_most_one_timer_witness :
  let c := run (mount "S1") [Tick 0; Settle 0 (Throw "Failed to fetch")] in
  let c' := step c (SetShipment "S2") in
  size (timers c) ≤ 1
  ∧ size (timers c') ≤ 1
  ∧ timers c' !! 0 = None
  ∧ (timers c' !! 1 = Some "S2" → "S2" = "S2").
Proof.
  intros c c'.
  destruct (at_most_one_timer "S1" [Tick 0; Settle 0 (Throw "Failed to fetch")])
    as (Hsize & _ & Hswitch).
  destruct (Hswitch "S2") as (Hsize' & Hold & Hnew).
  - reflexivity.
  - discriminate.
  - split; [exact Hsize|]. split; [exact Hsize'|]. split.
    + apply Hold. exists "S1". reflexivity.
    + apply Hnew.
Defined.

(** Nothing changes the state cells of an unmounted component. *)
Lemma unmounted_frozen (es : list event) (c : component) :
  mounted c = false → state (run c es) = state c.
Proof.
  revert c. induction es as [|e es IH]; intros c Hm; [done|].
  rewrite run_cons.
  assert (mounted (step c e) = false ∧ state (step c e) = state c) as [Hm' Hs].
  { destruct e as [id| |t|n fetched]; simpl; rewrite ?Hm; simpl; try done.
    - by destruct (timers c !! t).
    - by destruct (pending c !! n). }
  by rewrite (IH _ Hm').
Qed.

(** No event resets the error cell. *)
Lemma error_never_reset (c : component) (e : event) :
  is_Some (error (state c)) → is_Some (error (state (step c e))).
Proof.
  intros He. destruct e as [id| |t|n fetched]; simpl.
  - destruct (mounted c && negb (id =? shipmentId c)%string); [|done].
    rewrite (proj1 (run_effect_keeps _)). simpl.
    by rewrite (proj1 (proj2 (run_cleanup_keeps c))).
  - destruct (mounted c); [|done]. simpl.
    by rewrite (proj1 (proj2 (run_cleanup_keeps c))).
  - by destruct (timers c !! t).
  - destruct (pending c !! n) as [[[] id]|]; [..|done];
      destruct (mounted c); simpl; try done.
    by apply fetchData_keeps_error.
Qed.

(** C1, as the code has it.  Stopping a session (another subject, or
    unmounting) deactivates its interval, so none of its ticks issues a
    fetch or changes anything afterwards.  The stop itself changes no
    state cell, and the fetches in flight stay pending: while the
    component is mounted, each of them still writes its result to the
    state cells when it settles.  After an unmount no state cell changes
    any more. *)
Theorem stop_releases_timer_only (id : string) (es : list event) (e : event) :
  let c0 := run (mount id) es in
  let c := step c0 e in
  stops c0 e →
  (∀ t, is_Some (timers c0 !! t) → step c (Tick t) = c)
  ∧ state c = state c0
  ∧ (∀ n r, pending c0 !! n = Some r → pending c !! n = Some r)
  ∧ (∀ n r fetched, mounted c = true → pending c !! n = Some r →
       state (step c (Settle n fetched)) = settle (target r) fetched (state c))
  ∧ (e = Unmount → ∀ es', state (run c es') = state c0).
Proof.
  intros c0 c (Hm & _ & He).
  assert (session_inv c0) as Hinv0 by apply run_inv, mount_inv.
  destruct (run_cleanup_keeps c0) as (Hp & Hs & _ & _).
  split; [|split; [|split; [|split]]].
  - intros t Ht. simpl. unfold c. by rewrite (stop_retires_timer c0 e t).
  - unfold c. destruct He as [-> | (id' & -> & Hne)].
    + simpl. rewrite Hm. done.
    + rewrite (set_shipment_changed _ _ Hm Hne).
      by rewrite (proj1 (run_effect_keeps _)).
  - intros n r Hr. unfold c. destruct He as [-> | (id' & -> & Hne)].
    + simpl. rewrite Hm. simpl. by rewrite Hp.
    + rewrite (set_shipment_changed _ _ Hm Hne).
      destruct (run_effect_keeps (with_shipmentId id' (run_cleanup c0)))
        as (_ & _ & issued & ->).
      simpl. rewrite Hp. by apply lookup_app_l_Some.
  - intros n r fetched Hmc Hr. by apply settle_step.
  - intros -> es'. unfold c. rewrite unmounted_frozen; simpl; by rewrite Hm.
Qed.

Lemma stop_releases_timer_only_witness :
  let c := step (run (mount "S1") [Tick 0]) (SetShipment "") in
  step c (Tick 0) = c
  ∧ pending c !! 3 = Some {| target := Tracking; subject := "S1" |}
  ∧ state (step c (Settle 3 (Ok (json_response tracking_payload))))
    = settle Tracking (Ok (json_response tracking_payload)) (state c).
Proof.
  intros c.
  destruct (stop_releases_timer_only "S1" [Tick 0] (SetShipment ""))
    as (Htick & _ & Hkeep & Hsettle & _).
  - split; [reflexivity|]. split; [by exists 0|].
    right. exists "". split; [reflexivity|discriminate].
  - split; [apply Htick; by exists "S1"|]. split.
    + apply Hkeep. reflexivity.
    + apply (Hsettle 3 {| target := Tracking; subject := "S1" |}); reflexivity.
Defined.

(** C1, as stated, fails.  A tick issues a tracking fetch, the subject is
    then cleared (the cleanup runs and nothing is started), and when the
    fetch settles it replaces [trackingData] and [loading]. *)
Lemma stop_discards_in_flight_counterexample : ¬ stop_discards_in_flight.
Proof.
  intros Hstop.
  specialize (Hstop "S1" [Tick 0] (SetShipment "") 3
                {| target := Tracking; subject := "S1" |}
                (Ok (json_response tracking_payload))).
  simpl in Hstop.
  assert (stops (run (mount "S1") [Tick 0]) (SetShipment "")) as Hs.
  { split; [reflexivity|]. split; [by exists 0|].
    right. exists "". split; [reflexivity|discriminate]. }
  specialize (Hstop Hs eq_refl).
  apply (f_equal loading) in Hstop. discriminate Hstop.
Qed.

(** * Further properties of the component *)

(** ** The response reader, continued *)

(** [safeJson] hands out a value in two cases only: the default on
    status 404, and the parsed body of a 2xx response that declares
    JSON.  No other response yields a value. *)
Theorem safeJson_value_origin (res : Response) (d v : value) :
  safeJson res d = Ok v →
  (status res = 404 ∧ v = d)
  ∨ (status res ≠ 404 ∧ ok res = true
     ∧ includes (default "" (content_type res)) "application/json" = true
     ∧ json res = Ok v).
Proof.
  unfold safeJson. destruct (status res =? 404) eqn:H404.
  - intros [= <-]. left. by apply Nat.eqb_eq in H404.
  - apply Nat.eqb_neq in H404. destruct (ok res); simpl.
    + destruct (includes (default "" (content_type res)) "application/json"); simpl.
      * intros Hj. right. done.
      * by destruct (text res).
    + by destruct (text res).
Qed.

Lemma safeJson_value_origin_witness :
  (status (json_response tracking_payload) = 404 ∧ tracking_payload = VNull)
  ∨ (status (json_response tracking_payload) ≠ 404
     ∧ ok (json_response tracking_payload) = true
     ∧ includes (default "" (content_type (json_response tracking_payload)))
         "application/json" = true
     ∧ json (json_response tracking_payload) = Ok tracking_payload).
Proof.
  apply (safeJson_value_origin (json_response tracking_payload) VNull tracking_payload).
  reflexivity.
Defined.

Lemma safeJson_not_json_bounded_witness :
  ∃ message, safeJson (html_page long_body) VNull = Throw message
             ∧ String.length message ≤ 223.
Proof.
  apply (safeJson_not_json_bounded (html_page long_body) VNull long_body);
    reflexivity.
Defined.

Lemma nonempty_truthy (s : string) :
  s ≠ "" → string_truthy (Some s) = true.
Proof. by destruct s. Qed.

(** A failure status other than 404 whose body can be read blocks the
    view: the tracking fetch stores the body (or, for an empty body, the
    fixed text) as the error, keeps the tracking data it had, and the
    component renders the error message. *)
Theorem failure_status_blocks_view (res : Response) (body : string) (h : hooks) :
  status res ≠ 404 →
  ok res = false →
  text res = Ok body →
  let message := if (String.length body =? 0) then "Network response was not ok" else body in
  trackingData (fetchData (Ok res) h) = trackingData h
  ∧ render (fetchData (Ok res) h) = Ok (ErrorMessage message).
Proof.
  intros H404 Hok Htext message.
  assert (fetchData (Ok res) h = setLoading false (setError message h)) as ->.
  { unfold fetchData, safeJson. simpl.
    apply Nat.eqb_neq in H404. rewrite H404, Hok, Htext. simpl.
    unfold message. by destruct (String.length body =? 0). }
  split; [done|].
  assert (message ≠ "") as Hne.
  { unfold message. destruct body; simpl; done. }
  apply nonempty_truthy in Hne.
  unfold render. cbn [loading error setLoading setError default].
  by rewrite Hne.
Qed.

Lemma failure_status_blocks_view_witness :
  trackingData (fetchData (Ok (server_error "")) (hooks_showing tracking_payload []))
  = tracking_payload
  ∧ render (fetchData (Ok (server_error "")) (hooks_showing tracking_payload []))
    = Ok (ErrorMessage "Network response was not ok").
Proof.
  apply (failure_status_blocks_view (server_error "") ""
           (hooks_showing tracking_payload [])).
  - discriminate.
  - reflexivity.
  - reflexivity.
Defined.

(** ** Route normalization, continued *)

Lemma map_result_length {A B : Type} (f : A → result B) (l : list A) (r : list B) :
  map_result f l = Ok r → length r = length l.
Proof.
  revert r. induction l as [|a l IH]; intros r; simpl.
  - by intros [= <-].
  - destruct (f a) as [b|]; simpl; [|done].
    destruct (map_result f l) as [bs|]; simpl; [|done].
    intros [= <-]. simpl. by rewrite (IH bs).
Qed.

Lemma map_opt_labeled_labeled (pts : list point) :
  map_result opt_labeled (labeled <$> pts) = Ok pts.
Proof.
  induction pts as [|[lat lng] pts IH]; [done|].
  rewrite fmap_cons. cbn [map_result]. rewrite IH. reflexivity.
Qed.

(** A geometry of labeled objects [{lat, lng}] is taken over point by
    point, in order: by the simulated route fetch always, and by the
    optimized route fetch when the [lat] of the first object is a
    number. *)
Theorem route_labeled_kept (payload : value) (pts : list point) :
  field payload "geometry" = VArr (labeled <$> pts) →
  simGeometry payload = Ok pts
  ∧ (match pts with
     | [] => True
     | p :: _ => is_number p.1 = true
     end → optGeometry payload = Ok pts).
Proof.
  intros Hg. split.
  - unfold simGeometry. rewrite (geometry_of_array _ _ Hg). simpl.
    apply map_sim_point_labeled.
  - intros Hfirst. unfold optGeometry. rewrite (geometry_of_array _ _ Hg).
    unfold gt_zero. cbn [length_of to_number mbind result_bind].
    rewrite number_pos_of_nat.
    destruct pts as [|[lat lng] pts]; [done|].
    change (first_of (VArr (labeled <$> (lat, lng) :: pts))) with (labeled (lat, lng)).
    simpl in Hfirst. cbn [length fmap list_fmap Nat.eqb negb isArray labeled prop].
    change (field (labeled (lat, lng)) "lat") with lat.
    cbn [mbind result_bind].
    rewrite Hfirst. apply (map_opt_labeled_labeled ((lat, lng) :: pts)).
Qed.

Lemma route_labeled_kept_witness :
  let pts := [ (num 40.7, num (-74)); (num 40.8, num (-73.9)) ] in
  simGeometry (VObj [("geometry", VArr (labeled <$> pts))]) = Ok pts
  ∧ optGeometry (VObj [("geometry", VArr (labeled <$> pts))]) = Ok pts.
Proof.
  intros pts.
  destruct (route_labeled_kept (VObj [("geometry", VArr (labeled <$> pts))]) pts)
    as [Hsim Hopt]; [reflexivity|].
  split; [exact Hsim|]. apply Hopt. reflexivity.
Defined.

(** A route fetch that gets no parsed payload stores the empty route:
    when the fetch rejects, when the status is outside 200-299 (404
    included), when the response does not declare JSON, and when its
    body does not parse. *)
Theorem route_failure_gives_empty :
  (∀ m, fetchSimRoute (Throw m) = [] ∧ fetchOptRoute (Throw m) = [])
  ∧ (∀ res,
       ok res = false
       ∨ includes (default "" (content_type res)) "application/json" = false
       ∨ (∃ m, json res = Throw m) →
       fetchSimRoute (Ok res) = [] ∧ fetchOptRoute (Ok res) = []).
Proof.
  split; [done|]. intros res Hfail.
  unfold fetchSimRoute, fetchOptRoute, safeJson. simpl.
  destruct (status res =? 404); [done|].
  destruct (ok res); simpl.
  - destruct (includes (default "" (content_type res)) "application/json"); simpl.
    + destruct Hfail as [?|[?|[m ->]]]; done.
    + by destruct (text res).
  - by destruct (text res).
Qed.

Lemma route_failure_gives_empty_witness :
  fetchSimRoute (Ok (server_error "boom")) = []
  ∧ fetchOptRoute (Ok (server_error "boom")) = [].
Proof.
  apply (proj2 route_failure_gives_empty (server_error "boom")).
  left. reflexivity.
Defined.

(** A payload without a usable geometry (the payload or its [geometry]
    is falsy: absent, [null], [0], the empty string) and a payload with
    the empty geometry both normalize to the empty route, for both
    sources, without an exception. *)
Theorem route_without_geometry (payload : value) :
  truthy payload = false
  ∨ truthy (field payload "geometry") = false
  ∨ field payload "geometry" = VArr [] →
  simGeometry payload = Ok [] ∧ optGeometry payload = Ok [].
Proof.
  intros Hcase.
  assert (geometry_of payload = VArr []) as Hg.
  { destruct Hcase as [Hp|[Hf|Hf]].
    - unfold geometry_of. by rewrite Hp.
    - unfold geometry_of. rewrite Hf. by destruct (truthy payload).
    - by apply geometry_of_array. }
  unfold simGeometry, optGeometry. by rewrite Hg.
Qed.

Lemma route_without_geometry_witness :
  simGeometry (VObj [("distance", num 12)]) = Ok []
  ∧ optGeometry (VObj [("distance", num 12)]) = Ok [].
Proof.
  apply (route_without_geometry (VObj [("distance", num 12)])).
  right. left. reflexivity.
Defined.

(** A route is converted whole or not at all.  What the simulated route
    normalization returns has one point per geometry element; what the
    optimized route normalization returns is empty or has one point per
    geometry element. *)
Theorem route_whole_or_nothing (payload : value) (r : route) :
  (simGeometry payload = Ok r →
     ∃ elems, geometry_of payload = VArr elems ∧ length r = length elems)
  ∧ (optGeometry payload = Ok r →
     r = [] ∨ ∃ elems, geometry_of payload = VArr elems ∧ length r = length elems).
Proof.
  split.
  - unfold simGeometry, js_map.
    destruct (geometry_of payload) as [| | | | |elems|]; try done.
    intros Hmap. exists elems. split; [done|]. by eapply map_result_length.
  - unfold optGeometry.
    destruct (gt_zero (length_of (geometry_of payload))) as [[]|]; simpl;
      [| by intros [= <-]; left | done].
    assert (∀ f, js_map (geometry_of payload) f = Ok r →
              ∃ elems, geometry_of payload = VArr elems ∧ length r = length elems) as Hjs.
    { intros f. unfold js_map.
      destruct (geometry_of payload) as [| | | | |elems|]; try done.
      intros Hmap. exists elems. split; [done|]. by eapply map_result_length. }
    destruct (isArray (first_of (geometry_of payload))).
    + intros Hmap. right. by eapply Hjs.
    + destruct (prop (first_of (geometry_of payload)) "lat") as [lat|]; simpl; [|done].
      destruct (is_number lat).
      * intros Hmap. right. by eapply Hjs.
      * intros [= <-]. by left.
Qed.

Lemma route_whole_or_nothing_witness :
  (∃ elems, geometry_of scenario_route = VArr elems
            ∧ length (swapped <$> scenario_pairs) = length elems)
  ∧ ((swapped <$> scenario_pairs) = []
     ∨ ∃ elems, geometry_of scenario_route = VArr elems
                ∧ length (swapped <$> scenario_pairs) = length elems).
Proof.
  destruct (route_whole_or_nothing scenario_route (swapped <$> scenario_pairs))
    as [Hsim Hopt].
  split; [apply Hsim|apply Hopt]; reflexivity.
Defined.

(** ** Position normalization, continued *)

Lemma first_coordinate_priority (d : value) (k1 k2 k3 k4 k : string)
    (pre post : list string) (x : number) :
  [k1; k2; k3; k4] = (pre ++ k :: post)%list →
  Forall (λ k', is_number (field d k') = false) pre →
  field d k = VNum x →
  first_coordinate d k1 k2 k3 k4 = VNum x.
Proof.
  intros Hsplit Hpre Hk. unfold first_coordinate.
  destruct pre as [|p1 [|p2 [|p3 [|p4 pre]]]]; simpl in Hsplit.
  - injection Hsplit as -> _. by rewrite Hk.
  - injection Hsplit as -> -> _.
    apply Forall_cons in Hpre as [-> _]. by rewrite Hk.
  - injection Hsplit as -> -> -> _.
    apply Forall_cons in Hpre as [-> Hpre].
    apply Forall_cons in Hpre as [-> _]. by rewrite Hk.
  - injection Hsplit as -> -> -> -> _.
    apply Forall_cons in Hpre as [-> Hpre].
    apply Forall_cons in Hpre as [-> Hpre].
    apply Forall_cons in Hpre as [-> _]. by rewrite Hk.
  - injection Hsplit as _ _ _ _ Hnil. by destruct pre.
Qed.

(** The first name, in the order the component tries them, that holds a
    number gives the coordinate, whatever the later names hold and
    whether or not the primary name holds a string: numbers are tried
    under every name before the string is looked at. *)
Theorem first_numeric_name_wins (d : value) (k : string)
    (pre post : list string) (x : number) :
  Forall (λ k', is_number (field d k') = false) pre →
  field d k = VNum x →
  (lat_names = (pre ++ k :: post)%list → CurrentLatitude d = VNum x)
  ∧ (lng_names = (pre ++ k :: post)%list → CurrentLongitude d = VNum x).
Proof.
  intros Hpre Hk. split; intros Hsplit.
  - rewrite CurrentLatitude_shape. by eapply first_coordinate_priority.
  - rewrite CurrentLongitude_shape. by eapply first_coordinate_priority.
Qed.

Lemma first_numeric_name_wins_witness :
  CurrentLatitude (VObj [("CurrentLatitude", VStr "12.5"); ("latitude", num 40.7);
                         ("Latitude", num 1)])
  = VNum (Finite 40.7).
Proof.
  apply (first_numeric_name_wins
           (VObj [("CurrentLatitude", VStr "12.5"); ("latitude", num 40.7);
                  ("Latitude", num 1)])
           "latitude" ["CurrentLatitude"; "CurrentLat"] ["Latitude"] (Finite 40.7)).
  - repeat constructor.
  - reflexivity.
  - reflexivity.
Defined.

Lemma first_coordinate_number (d : value) (k1 k2 k3 k4 : string) :
  is_number (first_coordinate d k1 k2 k3 k4) = true.
Proof.
  unfold first_coordinate.
  destruct (is_number (field d k1)) eqn:H1; [done|].
  destruct (is_number (field d k2)) eqn:H2; [done|].
  destruct (is_number (field d k3)) eqn:H3; [done|].
  destruct (is_number (field d k4)) eqn:H4; [done|].
  destruct (field d k1) as [| | | |s| |]; try done.
  by destruct (negb (String.length s =? 0)).
Qed.

(** A map is rendered exactly when loading is over, no error is set, the
    tracking data is truthy, both coordinates are finite and the
    estimated delivery, when there is one, can be turned into a date
    (otherwise building the popup raises).  The [typeof] tests of the
    guard at lines 171-176 never decide: the two coordinate functions
    return a number on every payload. *)
Theorem map_rendered_iff (h : hooks) :
  is_number (CurrentLatitude (trackingData h)) = true
  ∧ is_number (CurrentLongitude (trackingData h)) = true
  ∧ (is_Some (MapView_body (render h)) ↔
     loading h = false
     ∧ string_truthy (error h) = false
     ∧ truthy (trackingData h) = true
     ∧ Number_isFinite (CurrentLatitude (trackingData h)) = true
     ∧ Number_isFinite (CurrentLongitude (trackingData h)) = true
     ∧ (truthy (estimatedDelivery (trackingData h)) = true →
        unprintable (estimatedDelivery (trackingData h)) = false)).
Proof.
  pose proof (first_coordinate_number (trackingData h)
                "CurrentLatitude" "CurrentLat" "latitude" "Latitude") as Hlat.
  pose proof (first_coordinate_number (trackingData h)
                "CurrentLongitude" "CurrentLng" "longitude" "Longitude") as Hlng.
  rewrite <- CurrentLatitude_shape in Hlat. rewrite <- CurrentLongitude_shape in Hlng.
  split; [done|]. split; [done|].
  unfold render, Date_toLocaleString. rewrite Hlat, Hlng.
  destruct (loading h); simpl.
  { split; [by intros [? [=]]|by intros [[=] _]]. }
  destruct (string_truthy (error h)); simpl.
  { split; [by intros [? [=]]|by intros (_ & [=] & _)]. }
  destruct (truthy (trackingData h)); simpl.
  2:{ split; [by intros [? [=]]|by intros (_ & _ & [=] & _)]. }
  destruct (Number_isFinite (CurrentLatitude (trackingData h))); simpl.
  2:{ split; [by intros [? [=]]|by intros (_ & _ & _ & [=] & _)]. }
  destruct (Number_isFinite (CurrentLongitude (trackingData h))); simpl.
  2:{ split; [by intros [? [=]]|by intros (_ & _ & _ & _ & [=] & _)]. }
  destruct (truthy (estimatedDelivery (trackingData h))); simpl.
  2:{ split; [done|]. intros _. eauto. }
  destruct (unprintable (estimatedDelivery (trackingData h))); simpl.
  - split; [by intros [? [=]]|]. intros (_ & _ & _ & _ & _ & Hp). by specialize (Hp eq_refl).
  - split; [done|]. intros _. eauto.
Qed.

(** Building the popup raises when the estimated delivery cannot be
    turned into a date, as for [{toString: 1}]. *)
Example render_raises_on_unprintable_delivery :
  render (hooks_showing
            (VObj [("CurrentLat", num 40.7); ("CurrentLng", num (-74));
                   ("estimatedDelivery", VObj [("toString", num 1)])]) [])
  = Throw type_error.
Proof. reflexivity. Qed.

Lemma truthy_js_or (a b : value) : truthy (js_or a b) = truthy a || truthy b.
Proof. unfold js_or. destruct (truthy a) eqn:E; simpl; done. Qed.

Lemma js_or_null (a : value) : js_or a VNull = VNull ↔ truthy a = false.
Proof.
  unfold js_or. destruct (truthy a) eqn:E; split; try done.
  intros ->. done.
Qed.

(** The status shown in the popup is the first truthy value among
    [currentStatus], [current_state] and [status], in this order, and it
    is [null] exactly when none of the three is truthy, so a falsy
    status (the empty string, [0]) is never shown as such.  In the same
    way the estimated delivery is the first truthy value of
    [estimatedDelivery] and [estimated_delivery], and [null] exactly
    when neither is truthy. *)
Theorem status_fallback (d : value) :
  (currentStatus d = VNull ↔
     truthy (field d "currentStatus") = false
     ∧ truthy (field d "current_state") = false
     ∧ truthy (field d "status") = false)
  ∧ (truthy (field d "currentStatus") = true →
       currentStatus d = field d "currentStatus")
  ∧ (truthy (field d "currentStatus") = false →
       truthy (field d "current_state") = true →
       currentStatus d = field d "current_state")
  ∧ (truthy (field d "currentStatus") = false →
       truthy (field d "current_state") = false →
       truthy (field d "status") = true →
       currentStatus d = field d "status")
  ∧ (estimatedDelivery d = VNull ↔
       truthy (field d "estimatedDelivery") = false
       ∧ truthy (field d "estimated_delivery") = false)
  ∧ (truthy (field d "estimatedDelivery") = true →
       estimatedDelivery d = field d "estimatedDelivery")
  ∧ (truthy (field d "estimatedDelivery") = false →
       truthy (field d "estimated_delivery") = true →
       estimatedDelivery d = field d "estimated_delivery").
Proof.
  split; [|split; [|split; [|split; [|split; [|split]]]]].
  - unfold currentStatus. rewrite js_or_null, !truthy_js_or, !orb_false_iff. tauto.
  - intros H1. unfold currentStatus, js_or. by rewrite H1, H1, H1.
  - intros H1 H2. unfold currentStatus, js_or. by rewrite H1, H2, H2.
  - intros H1 H2 H3. unfold currentStatus, js_or.
    rewrite H1. simpl. rewrite H2. simpl. by rewrite H3.
  - unfold estimatedDelivery. rewrite js_or_null, truthy_js_or, orb_false_iff. tauto.
  - intros H1. unfold estimatedDelivery, js_or. by rewrite H1, H1.
  - intros H1 H2. unfold estimatedDelivery, js_or.
    rewrite H1. simpl. by rewrite H2.
Qed.

Lemma status_fallback_witness :
  currentStatus tracking_payload = VStr "in_transit"
  ∧ currentStatus (VObj [("currentStatus", VStr ""); ("status", VStr "delivered")])
    = VStr "delivered"
  ∧ estimatedDelivery (VObj [("estimated_delivery", VStr "2025-01-31")])
    = VStr "2025-01-31".
Proof.
  split; [|split].
  - destruct (status_fallback tracking_payload) as (_ & _ & Hsecond & _).
    apply Hsecond; reflexivity.
  - destruct (status_fallback
                (VObj [("currentStatus", VStr ""); ("status", VStr "delivered")]))
      as (_ & _ & _ & Hthird & _).
    apply Hthird; reflexivity.
  - destruct (status_fallback (VObj [("estimated_delivery", VStr "2025-01-31")]))
      as (_ & _ & _ & _ & _ & _ & Hsecond).
    apply Hsecond; reflexivity.
Defined.

Lemma map_rendered_iff_witness :
  is_Some (MapView_body (render (hooks_showing tracking_payload []))).
Proof.
  apply (proj2 (proj2 (map_rendered_iff (hooks_showing tracking_payload [])))).
  repeat split; reflexivity.
Defined.

(** ** The polling session, continued *)

Lemma idle_step (c : component) (e : event) :
  keeps_idle e = true → idle c → idle (step c e).
Proof.
  intros He (Hs & Hp & Ht & Hc & Hid).
  destruct e as [id| |t|n fetched]; simpl.
  - apply empty_id in He as ->. rewrite Hid. simpl.
    by rewrite andb_false_r.
  - destruct (mounted c); [|done]. unfold run_cleanup. by rewrite Hc.
  - by rewrite Ht, lookup_empty.
  - by rewrite Hp.
Qed.

Lemma idle_run (es : list event) (c : component) :
  forallb keeps_idle es = true → idle c → idle (run c es).
Proof.
  revert c. induction es as [|e es IH]; intros c Hes Hc; [done|].
  simpl in Hes. apply andb_true_iff in Hes as [He Hes].
  rewrite run_cons. by apply IH, idle_step.
Qed.

(** A component mounted without a subject stays idle: as long as it is
    given no subject, it issues no fetch, starts no timer, keeps its
    initial state cells and shows the loading message. *)
Theorem no_subject_stays_idle (es : list event) :
  forallb keeps_idle es = true →
  let c := run (mount "") es in
  state c = initial_hooks
  ∧ pending c = []
  ∧ timers c = ∅
  ∧ render (state c) = Ok LoadingMessage.
Proof.
  intros Hes c.
  destruct (idle_run es (mount "") Hes) as (Hs & Hp & Ht & _ & _); [done|].
  unfold c. by rewrite Hs.
Qed.

Lemma no_subject_stays_idle_witness :
  let c := run (mount "") [Tick 0; SetShipment ""; Settle 0 (Throw "Failed to fetch")] in
  state c = initial_hooks ∧ pending c = [] ∧ timers c = ∅
  ∧ render (state c) = Ok LoadingMessage.
Proof.
  apply (no_subject_stays_idle
           [Tick 0; SetShipment ""; Settle 0 (Throw "Failed to fetch")]).
  reflexivity.
Defined.

Lemma fetchData_loading (fetched : result Response) (h : hooks) :
  loading (fetchData fetched h) = false.
Proof.
  unfold fetchData. destruct fetched as [res|m]; simpl; [|done].
  by destruct (safeJson res VNull).
Qed.

Lemma step_state (c : component) (e : event) :
  state (step c e) = state c
  ∨ ∃ n r fetched, e = Settle n fetched ∧ mounted c = true ∧ pending c !! n = Some r
                   ∧ state (step c e) = settle (target r) fetched (state c).
Proof.
  destruct e as [id| |t|n fetched]; simpl.
  - left. destruct (mounted c && negb (id =? shipmentId c)%string); [|done].
    rewrite (proj1 (run_effect_keeps _)). simpl. apply run_cleanup_keeps.
  - left. destruct (mounted c); [|done]. simpl. apply run_cleanup_keeps.
  - left. by destruct (timers c !! t).
  - destruct (pending c !! n) as [r|] eqn:Hr; [|by left].
    destruct (mounted c) eqn:Hm; [|by left].
    right. exists n, r, fetched. done.
Qed.

Lemma settle_loading (target : endpoint) (fetched : result Response) (h : hooks) :
  loading h = false → loading (settle target fetched h) = false.
Proof. intros Hl. destruct target; simpl; [apply fetchData_loading|done..]. Qed.

(** The loading message ends with the first tracking fetch that settles,
    whether it succeeded or failed, and it never comes back: no later
    event, a change of subject included, sets [loading] again. *)
Theorem loading_ends_for_good :
  (∀ c n r fetched,
     mounted c = true → pending c !! n = Some r → target r = Tracking →
     loading (state (step c (Settle n fetched))) = false)
  ∧ (∀ es c, loading (state c) = false → loading (state (run c es)) = false).
Proof.
  split.
  - intros c n r fetched Hm Hr Ht.
    rewrite (settle_step _ _ _ _ Hm Hr), Ht. apply fetchData_loading.
  - induction es as [|e es IH]; intros c Hl; [done|].
    rewrite run_cons. apply IH.
    destruct (step_state c e) as [-> | (n & r & fetched & _ & _ & _ & ->)]; [done|].
    by apply settle_loading.
Qed.

Lemma loading_ends_for_good_witness :
  loading (state (step (mount "S1") (Settle 0 (Throw "Failed to fetch")))) = false
  ∧ loading (state (run (step (mount "S1") (Settle 0 (Throw "Failed to fetch")))
                      [SetShipment "S2"; Tick 1])) = false.
Proof.
  destruct loading_ends_for_good as [Hfirst Hlater]. split.
  - apply (Hfirst (mount "S1") 0 {| target := Tracking; subject := "S1" |});
      reflexivity.
  - apply Hlater. reflexivity.
Defined.

(** The three resources are independent.  Whatever a fetch settles with,
    the tracking fetch leaves both routes as they were, and a route
    fetch leaves the tracking data, the loading flag, the error and the
    other route as they were. *)
Theorem settle_touches_own_cells (fetched : result Response) (h : hooks) :
  (simRoute (settle Tracking fetched h) = simRoute h
   ∧ optRoute (settle Tracking fetched h) = optRoute h)
  ∧ (trackingData (settle Simulated fetched h) = trackingData h
     ∧ loading (settle Simulated fetched h) = loading h
     ∧ error (settle Simulated fetched h) = error h
     ∧ optRoute (settle Simulated fetched h) = optRoute h)
  ∧ (trackingData (settle Optimized fetched h) = trackingData h
     ∧ loading (settle Optimized fetched h) = loading h
     ∧ error (settle Optimized fetched h) = error h
     ∧ simRoute (settle Optimized fetched h) = simRoute h).
Proof.
  split; [|done]. simpl. unfold fetchData.
  destruct fetched as [res|m]; simpl; [|done].
  by destruct (safeJson res VNull).
Qed.

(** Only the settlement of a fetch changes the state cells.  A tick, an
    unmount and a change of subject leave them as they are; so after a
    change of subject the view keeps showing what it showed for the
    previous subject until a fetch settles. *)
Theorem only_settlement_changes_state (c : component) (e : event) :
  (∀ n fetched, e ≠ Settle n fetched) →
  state (step c e) = state c ∧ render (state (step c e)) = render (state c).
Proof.
  intros He.
  destruct (step_state c e) as [-> | (n & r & fetched & -> & _)]; [done|].
  by destruct (He n fetched).
Qed.

Lemma only_settlement_changes_state_witness :
  let c := run (mount "S1") [Settle 0 (Ok (json_response tracking_payload))] in
  state (step c (SetShipment "S2")) = state c
  ∧ render (state (step c (SetShipment "S2"))) = render (state c).
Proof.
  intros c. apply (only_settlement_changes_state c (SetShipment "S2")).
  discriminate.
Defined.

(** Fetches of different resources may settle in either order: the state
    cells end up the same. *)
Theorem settlements_commute (t1 t2 : endpoint) (f1 f2 : result Response) (h : hooks) :
  t1 ≠ t2 →
  settle t1 f1 (settle t2 f2 h) = settle t2 f2 (settle t1 f1 h).
Proof.
  intros Hne.
  assert (∀ f r, fetchData f (setSimRoute r h) = setSimRoute r (fetchData f h)) as Hsim.
  { intros f r. unfold fetchData. destruct f as [res|m]; simpl; [|done].
    by destruct (safeJson res VNull). }
  assert (∀ f r, fetchData f (setOptRoute r h) = setOptRoute r (fetchData f h)) as Hopt.
  { intros f r. unfold fetchData. destruct f as [res|m]; simpl; [|done].
    by destruct (safeJson res VNull). }
  destruct t1, t2; try done; simpl; by rewrite ?Hsim, ?Hopt.
Qed.

Lemma settlements_commute_witness :
  settle Tracking (Throw "Failed to fetch")
    (settle Optimized (Ok (json_response scenario_route)) initial_hooks)
  = settle Optimized (Ok (json_response scenario_route))
      (settle Tracking (Throw "Failed to fetch") initial_hooks).
Proof.
  apply (settlements_commute Tracking Optimized). discriminate.
Defined.

Lemma poll_subject (id : string) (r : request) : r ∈ poll id → subject r = id.
Proof.
  unfold poll. rewrite !elem_of_cons, elem_of_nil.
  intros [->|[->|[->|[]]]]; done.
Qed.

Lemma run_effect_pending (c : component) :
  pending (run_effect c)
  = if (String.length (shipmentId c) =? 0) then pending c
    else (pending c ++ poll (shipmentId c))%list.
Proof. unfold run_effect. by destruct (String.length (shipmentId c) =? 0). Qed.

Lemma active_timer_subject (c : component) (t : nat) (id : string) :
  session_inv c → timers c !! t = Some id → id = shipmentId c ∧ id ≠ "".
Proof.
  intros Hinv Ht. rewrite (inv_timers c Hinv) in Ht.
  destruct (cleanup c) as [t0|] eqn:Hc; [|by rewrite lookup_empty in Ht].
  apply lookup_singleton_Some in Ht as [_ <-]. split; [done|].
  intros Hid. by rewrite (inv_no_subject c Hinv Hid) in Hc.
Qed.

Lemma step_pending_subject (c : component) (e : event) :
  session_inv c →
  (∀ r, r ∈ pending c → subject r ≠ "") →
  ∀ r, r ∈ pending (step c e) → subject r ≠ "".
Proof.
  intros Hinv Hall r. destruct e as [id| |t|n fetched]; simpl.
  - destruct (mounted c && negb (id =? shipmentId c)%string); [|apply Hall].
    rewrite run_effect_pending. simpl.
    rewrite (proj1 (run_cleanup_keeps c)).
    destruct (String.length id =? 0) eqn:Hid; [apply Hall|].
    rewrite elem_of_app. intros [Hr|Hr]; [by apply Hall|].
    rewrite (poll_subject _ _ Hr). intros ->. done.
  - destruct (mounted c); [|apply Hall]. simpl.
    rewrite (proj1 (run_cleanup_keeps c)). apply Hall.
  - destruct (timers c !! t) as [id|] eqn:Ht; [|apply Hall]. simpl.
    rewrite elem_of_app. intros [Hr|Hr]; [by apply Hall|].
    rewrite (poll_subject _ _ Hr). by apply (active_timer_subject c t id).
  - destruct (pending c !! n); [|apply Hall].
    destruct (mounted c); simpl; intros Hr%list_elem_of_delete_inv; by apply Hall.
Qed.

(** The component never issues a fetch for an empty subject: in every
    reachable state, each fetch in flight is for a non-empty
    [shipmentId]. *)
Theorem never_polls_empty_subject (id : string) (es : list event) (r : request) :
  r ∈ pending (run (mount id) es) → subject r ≠ "".
Proof.
  revert r.
  assert (session_inv (mount id) ∧ ∀ r, r ∈ pending (mount id) → subject r ≠ "")
    as Hinit.
  { split; [apply mount_inv|]. intros r. unfold mount. rewrite run_effect_pending.
    simpl. destruct (String.length id =? 0) eqn:Hid; [by intros ?%elem_of_nil|].
    intros Hr. rewrite (poll_subject _ _ Hr). intros ->. done. }
  revert Hinit. generalize (mount id) as c.
  induction es as [|e es IH]; intros c [Hinv Hall]; [done|].
  rewrite run_cons. apply IH. split; [by apply step_inv|].
  by apply step_pending_subject.
Qed.

Lemma never_polls_empty_subject_witness :
  subject {| target := Simulated; subject := "S2" |} ≠ "".
Proof.
  apply (never_polls_empty_subject "S1" [Tick 0; SetShipment ""; SetShipment "S2"]
           {| target := Simulated; subject := "S2" |}).
  vm_compute. do 7 apply list_elem_of_further. apply list_elem_of_here.
Defined.

Lemma unmounted_step (c : component) (e : event) :
  mounted c = false → timers c = ∅ →
  mounted (step c e) = false ∧ timers (step c e) = ∅
  ∧ length (pending (step c e)) ≤ length (pending c).
Proof.
  intros Hm Ht. destruct e as [id| |t|n fetched]; simpl; rewrite ?Hm; simpl; try done.
  - by rewrite Ht, lookup_empty.
  - destruct (pending c !! n) as [r|] eqn:Hr; [|done]. simpl.
    rewrite length_delete by eauto. repeat split; [done..|lia].
Qed.

(** Unmounting ends the polling: afterwards no timer is active and no
    event issues a fetch; the fetches in flight can only settle, so
    their number never grows. *)
Theorem unmount_ends_polling (id : string) (es es' : list event) :
  let c := step (run (mount id) es) Unmount in
  timers (run c es') = ∅
  ∧ length (pending (run c es')) ≤ length (pending c).
Proof.
  intros c.
  assert (mounted c = false ∧ timers c = ∅) as [Hm Ht].
  { unfold c. simpl.
    assert (session_inv (run (mount id) es)) as Hinv by apply run_inv, mount_inv.
    destruct (mounted (run (mount id) es)) eqn:Hm; simpl.
    - split; [done|]. by apply run_cleanup_released.
    - split; [done|]. rewrite (inv_timers _ Hinv).
      by rewrite (inv_unmounted _ Hinv Hm). }
  enough (∀ c0, mounted c0 = false → timers c0 = ∅ →
            timers (run c0 es') = ∅ ∧ length (pending (run c0 es')) ≤ length (pending c0))
    as Hgen by by apply Hgen.
  clear. induction es' as [|e es' IH]; intros c0 Hm Ht; [done|].
  rewrite run_cons.
  destruct (unmounted_step c0 e Hm Ht) as (Hm' & Ht' & Hlen).
  destruct (IH _ Hm' Ht') as [Hrun Hlen']. split; [done|lia].
Qed.




(** ** The marker presenter *)

Lemma position_ok_finite (position : value) :
  position_ok position = true →
  ∃ x y, position = VArr [VNum (Finite x); VNum (Finite y)].
Proof.
  destruct position as [| | | | |elems|]; try done. simpl.
  destruct elems as [|a [|b [|c elems]]]; try done. simpl.
  rewrite !andb_true_r.
  destruct a as [| | |[| |x]| | |]; try done.
  destruct b as [| | |[| |y]| | |]; try done. eauto.
Qed.

(** The effect of [AnimatedMarker] either leaves the marker where it is
    or moves it to the given position, and it moves it only to a pair of
    finite numbers; with a [null] ref it does nothing. *)
Theorem marker_moves_only_to_finite (current : option LeafletMarker) (position : value) :
  (current = None → AnimatedMarker_effect current position = None)
  ∧ (∀ m, current = Some m →
       (position_ok position = false
        ∧ AnimatedMarker_effect current position = Some m)
       ∨ (∃ x y, position = VArr [VNum (Finite x); VNum (Finite y)]
                 ∧ AnimatedMarker_effect current position
                   = Some {| latLng := (VNum (Finite x), VNum (Finite y)) |})).
Proof.
  split; [by intros ->|]. intros m ->. unfold AnimatedMarker_effect.
  destruct (position_ok position) eqn:Hok; [|by left].
  right. destruct (position_ok_finite _ Hok) as (x & y & ->). eauto.
Qed.

Lemma marker_moves_only_to_finite_witness :
  let m := {| latLng := (num 1, num 2) |} in
  AnimatedMarker_effect None (VArr [num 40.7; num (-74)]) = None
  ∧ ((position_ok (VArr [num 40.7; VNum NaN]) = false
      ∧ AnimatedMarker_effect (Some m) (VArr [num 40.7; VNum NaN]) = Some m)
     ∨ (∃ x y, VArr [num 40.7; VNum NaN] = VArr [VNum (Finite x); VNum (Finite y)]
               ∧ AnimatedMarker_effect (Some m) (VArr [num 40.7; VNum NaN])
                 = Some {| latLng := (VNum (Finite x), VNum (Finite y)) |})).
Proof.
  intros m. split.
  - apply (proj1 (marker_moves_only_to_finite None (VArr [num 40.7; num (-74)]))).
    reflexivity.
  - apply (proj2 (marker_moves_only_to_finite (Some m) (VArr [num 40.7; VNum NaN])) m).
    reflexivity.
Defined.

Lemma render_map_position (h : hooks) (initialPosition markerPosition : point)
    (popup : Popup) (overlays : list Polyline) :
  render h = Ok (MapView initialPosition markerPosition popup overlays) →
  markerPosition = (CurrentLatitude (trackingData h), CurrentLongitude (trackingData h)).
Proof.
  unfold render, Date_toLocaleString.
  repeat match goal with
         | |- context [if ?b then _ else _] =>
             destruct b; cbn [mbind result_bind]; try done
         end;
    by intros [= _ <- _ _].
Qed.

(** Every map the component renders repositions the marker.  The map is
    centred on the marker position, and that position passes the guard
    of the [AnimatedMarker] effect, which therefore moves the marker to
    the coordinates computed from the tracking data. *)
Theorem rendered_map_moves_marker (h : hooks) (mc : MapContainer) (m : LeafletMarker) :
  MapView_body (render h) = Some mc →
  center mc = marker_position mc
  ∧ position_ok (marker_position mc) = true
  ∧ AnimatedMarker_effect (Some m) (marker_position mc)
    = Some {| latLng := (CurrentLatitude (trackingData h),
                         CurrentLongitude (trackingData h)) |}.
Proof.
  destruct (render h) as [[| | | |ip mp popup ov]|] eqn:Hview; try done.
  intros [= <-]. simpl.
  destruct (render_map_finite _ _ _ _ _ Hview) as (x & y & -> & ->).
  assert (CurrentLatitude (trackingData h) = VNum (Finite x)
          ∧ CurrentLongitude (trackingData h) = VNum (Finite y)) as [-> ->].
  { by injection (render_map_position _ _ _ _ _ Hview) as <- <-. }
  done.
Qed.

Lemma rendered_map_moves_marker_witness :
  AnimatedMarker_effect (Some {| latLng := (num 1, num 2) |})
    (VArr [num 40.7; num (-74)])
  = Some {| latLng := (num 40.7, num (-74)) |}.
Proof.
  apply (rendered_map_moves_marker (hooks_showing tracking_payload [])
           {| center := VArr [num 40.7; num (-74)]; zoom := 6;
              marker_position := VArr [num 40.7; num (-74)];
              marker_popup := {| popup_status := VStr "in_transit";
                                 popup_estimated := None |};
              marker_overlays := [] |}
           {| latLng := (num 1, num 2) |}).
  reflexivity.
Defined.

(** ** Request URLs *)

Lemma append_cancel_l (b s t : string) : b +:+ s = b +:+ t → s = t.
Proof. induction b as [|c b IH]; simpl; [done|]. intros [= E]. by apply IH. Qed.

Lemma append_cancel_r (s1 s2 t : string) : s1 +:+ t = s2 +:+ t → s1 = s2.
Proof.
  intros E.
  assert (String.length s1 = String.length s2) as Hlen.
  { apply (f_equal String.length) in E. rewrite !append_length in E. lia. }
  revert s2 E Hlen. induction s1 as [|c s1 IH]; intros [|c2 s2]; simpl; try done.
  intros [= -> E] [= Hlen]. f_equal. by apply IH.
Qed.

(** Distinct requests have distinct URLs: under one base, the URL
    determines the endpoint and the subject, whatever characters the
    subject holds. *)
Theorem url_injective (base : string) (r1 r2 : request) :
  url base r1 = url base r2 → r1 = r2.
Proof.
  destruct r1 as [t1 id1], r2 as [t2 id2]. unfold url. simpl.
  destruct t1, t2; intros E%append_cancel_l; try done.
  - apply append_cancel_l, append_cancel_r in E. by subst.
  - apply append_cancel_l in E. by subst.
  - apply append_cancel_l in E. by subst.
Qed.

Lemma url_injective_witness :
  {| target := Simulated; subject := "S1" |} = {| target := Simulated; subject := "S1" |}.
Proof.
  apply (url_injective (API_BASE None)). reflexivity.
Defined.

(** ** Starting a session *)

(** A new subject is polled at once.  When a mounted component is given
    another, non-empty subject, the three fetches for it are issued
    before any tick, behind the fetches still in flight, and one
    interval for the new subject is the only active timer. *)
Theorem subject_switch_polls_at_once (id : string) (es : list event) (id' : string) :
  let c := run (mount id) es in
  mounted c = true → id' ≠ shipmentId c → id' ≠ "" →
  pending (step c (SetShipment id')) = (pending c ++ poll id')%list
  ∧ timers (step c (SetShipment id')) = {[next_timer c := id']}.
Proof.
  intros c Hm Hne Hid.
  assert (session_inv c) as Hinv by apply run_inv, mount_inv.
  rewrite (set_shipment_changed _ _ Hm Hne), run_effect_pending, run_effect_timers.
  simpl. destruct (String.length id' =? 0) eqn:Hlen.
  { by apply empty_id in Hlen. }
  destruct (run_cleanup_keeps c) as (-> & _ & _ & ->).
  rewrite (proj1 (run_cleanup_released c Hinv)). by rewrite insert_empty.
Qed.

Lemma subject_switch_polls_at_once_witness :
  let c := run (mount "S1") [Tick 0] in
  pending (step c (SetShipment "S2")) = (pending c ++ poll "S2")%list
  ∧ timers (step c (SetShipment "S2")) = {[next_timer c := "S2"]}.
Proof.
  apply (subject_switch_polls_at_once "S1" [Tick 0] "S2").
  - reflexivity.
  - discriminate.
  - discriminate.
Defined.
